(** * Movie Rater: a shallow embedding of the request handlers, the
      validation schema and the storage layer.

    Sources embedded here:
      - [server/routes.ts]    the four request handlers;
      - [shared/schema.ts]    the tables and [insertMovieSchema];
      - [server/storage.ts]   [DatabaseStorage] (queries and seeding);
      - [__tests__]           the helpers [isValidYear], [isValidRating]
                              and [averageRating].

    Modelling conventions.
      - A JavaScript number is [NaN], an infinity or a finite value; finite
        values are exact rationals ([Q]), so binary64 rounding and overflow
        are not modelled and [-0] is [0].
      - A request body is a JSON-like value ([JSValue]), or [undefined] when
        no body was parsed.  Exceptions are results ([Outcome]); a handler's
        [try]/[catch] is a match on them.
      - The database is a pair of tables held as lists of rows in insertion
        order, each with its [serial] sequence.  Integer columns hold [Z].
        Failures raised by the database engine are outside the model.
      - The two clocks read by the code ([new Date().getFullYear()] in the
        server and [now()] in the database) are explicit arguments. *)

From Stdlib Require Import ZArith QArith Qround Qabs Lia Lqa.
From Stdlib Require Import List Bool Ascii String.
From Stdlib Require DecimalString DecimalPos.
From Stdlib Require Import Sorting.Sorted Sorting.Permutation.
Import ListNotations.

Local Open Scope Z_scope.
Local Set Warnings "-register-all".

(** ** JavaScript numbers *)

Inductive JSNumber : Type :=
| NaN
| Infinity (negative : bool)
| Finite (q : Q).

Definition num_of_Z (z : Z) : JSNumber := Finite (inject_Z z).

(** Global [isNaN] applied to a number. *)
Definition isNaN (n : JSNumber) : bool :=
  match n with NaN => true | _ => false end.

Definition Q_is_integer (q : Q) : bool :=
  (Qnum q mod Zpos (Qden q) =? 0).

(** [Number.isInteger]. *)
Definition Number_isInteger (n : JSNumber) : bool :=
  match n with Finite q => Q_is_integer q | _ => false end.

Definition Qltb (a b : Q) : bool :=
  (Qnum a * Zpos (Qden b) <? Qnum b * Zpos (Qden a)).

(** The relational operators [<] and [>] on numbers: any comparison with
    [NaN] is false. *)
Definition js_lt (a b : JSNumber) : bool :=
  match a, b with
  | NaN, _ | _, NaN => false
  | Infinity true, Infinity true => false
  | Infinity true, _ => true
  | _, Infinity true => false
  | Infinity false, _ => false
  | Finite _, Infinity false => true
  | Finite x, Finite y => Qltb x y
  end.

Definition js_gt (a b : JSNumber) : bool := js_lt b a.

(** Strict equality of numbers ([===], also what the store's [eq] does on
    numeric operands): [NaN] equals nothing. *)
Definition js_num_eq (a b : JSNumber) : bool :=
  match a, b with
  | Finite x, Finite y => Qeq_bool x y
  | Infinity s, Infinity t => Bool.eqb s t
  | _, _ => false
  end.

(** Truncation of a number already known to be an integer, used where a
    checked number is handed to an integer column. *)
Definition num_to_Z (n : JSNumber) : Z :=
  match n with Finite q => Qfloor q | _ => 0 end.

(** ** String to number ([StringToNumber] of the language specification)

    Strings are sequences of code units below 256; the whitespace stripped
    is TAB, LF, VT, FF, CR, SPACE and NBSP. *)

Definition is_StrWhiteSpaceChar (c : ascii) : bool :=
  let n := nat_of_ascii c in
  (Nat.eqb n 9 || Nat.eqb n 10 || Nat.eqb n 11 || Nat.eqb n 12
   || Nat.eqb n 13 || Nat.eqb n 32 || Nat.eqb n 160)%bool.

Fixpoint trim_start (l : list ascii) : list ascii :=
  match l with
  | c :: l' => if is_StrWhiteSpaceChar c then trim_start l' else l
  | [] => []
  end.

Definition trim (l : list ascii) : list ascii :=
  rev (trim_start (rev (trim_start l))).

Definition decimal_digit (c : ascii) : option Z :=
  let n := Z.of_nat (nat_of_ascii c) in
  if (48 <=? n) && (n <=? 57) then Some (n - 48) else None.

Definition hex_digit (c : ascii) : option Z :=
  let n := Z.of_nat (nat_of_ascii c) in
  if (48 <=? n) && (n <=? 57) then Some (n - 48)
  else if (65 <=? n) && (n <=? 70) then Some (n - 55)
  else if (97 <=? n) && (n <=? 102) then Some (n - 87)
  else None.

Definition octal_digit (c : ascii) : option Z :=
  let n := Z.of_nat (nat_of_ascii c) in
  if (48 <=? n) && (n <=? 55) then Some (n - 48) else None.

Definition binary_digit (c : ascii) : option Z :=
  let n := Z.of_nat (nat_of_ascii c) in
  if (48 <=? n) && (n <=? 49) then Some (n - 48) else None.

(** The longest prefix of digits, as digit values, and what follows it. *)
Fixpoint span_digits (digit : ascii -> option Z) (l : list ascii)
  : list Z * list ascii :=
  match l with
  | c :: l' =>
      match digit c with
      | Some d => let (ds, rest) := span_digits digit l' in (d :: ds, rest)
      | None => ([], l)
      end
  | [] => ([], [])
  end.

Definition digits_value (base : Z) (ds : list Z) : Z :=
  fold_left (fun acc d => acc * base + d) ds 0.

(** A whole string of digits in [base], at least one. *)
Definition parse_radix (digit : ascii -> option Z) (base : Z) (l : list ascii)
  : JSNumber :=
  match span_digits digit l with
  | (d :: ds, []) => num_of_Z (digits_value base (d :: ds))
  | _ => NaN
  end.

Definition ascii_in (c : ascii) (a b : ascii) : bool :=
  (Ascii.eqb c a || Ascii.eqb c b)%bool.

(** [ExponentPart], optional, up to the end of the string. *)
Definition parse_exponent (l : list ascii) : option Z :=
  match l with
  | [] => Some 0
  | c :: rest =>
      if ascii_in c "e" "E" then
        let (sign, rest') :=
          match rest with
          | s :: r =>
              if Ascii.eqb s "+" then (1, r)
              else if Ascii.eqb s "-" then (-1, r)
              else (1, rest)
          | [] => (1, rest)
          end in
        match span_digits decimal_digit rest' with
        | (d :: ds, []) => Some (sign * digits_value 10 (d :: ds))
        | _ => None
        end
      else None
  end.

(** [StrUnsignedDecimalLiteral] without [Infinity]: digits, an optional
    fraction and an optional exponent; [5.], [.5] and [5.e3] are literals,
    [.] alone is not. *)
Definition parse_unsigned_decimal (l : list ascii) : option Q :=
  let (ip, r1) := span_digits decimal_digit l in
  let (fp, r2) :=
    match r1 with
    | c :: r => if Ascii.eqb c "." then span_digits decimal_digit r else ([], r1)
    | [] => ([], r1)
    end in
  match ip, fp with
  | [], [] => None
  | _, _ =>
      match parse_exponent r2 with
      | Some e =>
          Some (inject_Z (digits_value 10 (ip ++ fp))
                * Qpower (inject_Z 10) (e - Z.of_nat (List.length fp)))%Q
      | None => None
      end
  end.

Definition Infinity_literal : list ascii := list_ascii_of_string "Infinity".

Definition list_ascii_eqb (a b : list ascii) : bool :=
  String.eqb (string_of_list_ascii a) (string_of_list_ascii b).

Definition parse_unsigned (l : list ascii) : JSNumber :=
  if list_ascii_eqb l Infinity_literal then Infinity false
  else match parse_unsigned_decimal l with
       | Some q => Finite q
       | None => NaN
       end.

Definition negate (n : JSNumber) : JSNumber :=
  match n with
  | NaN => NaN
  | Infinity s => Infinity (negb s)
  | Finite q => Finite (- q)%Q
  end.

Definition StringToNumber (s : string) : JSNumber :=
  match trim (list_ascii_of_string s) with
  | [] => num_of_Z 0
  | c :: rest =>
      if Ascii.eqb c "+" then parse_unsigned rest
      else if Ascii.eqb c "-" then negate (parse_unsigned rest)
      else if Ascii.eqb c "0" then
        match rest with
        | x :: digits =>
            if ascii_in x "x" "X" then parse_radix hex_digit 16 digits
            else if ascii_in x "o" "O" then parse_radix octal_digit 8 digits
            else if ascii_in x "b" "B" then parse_radix binary_digit 2 digits
            else parse_unsigned (c :: rest)
        | [] => parse_unsigned (c :: rest)
        end
      else parse_unsigned (c :: rest)
  end.

(** ** JSON-like values *)

Inductive JSValue : Type :=
| JUndefined
| JNull
| JBool (b : bool)
| JNumber (n : JSNumber)
| JString (s : string)
| JArray (items : list JSValue)
| JObject (props : list (string * JSValue)).

(** [Number(v)].  An array goes through its string form, the elements joined
    by commas: the empty array gives the empty string, a one-element array
    the string of its element ([null] and [undefined] print as the empty
    string, a number prints to a string that reads back as itself), and a
    longer array a string with a comma, which is no numeric literal.  A plain
    object prints as [[object Object]]. *)
Fixpoint Number (v : JSValue) : JSNumber :=
  match v with
  | JUndefined => NaN
  | JNull => num_of_Z 0
  | JBool true => num_of_Z 1
  | JBool false => num_of_Z 0
  | JNumber n => n
  | JString s => StringToNumber s
  | JArray [] => num_of_Z 0
  | JArray [e] =>
      match e with
      | JUndefined | JNull => num_of_Z 0
      | JBool _ => NaN
      | JNumber n => n
      | JString s => StringToNumber s
      | JArray _ => Number e
      | JObject _ => NaN
      end
  | JArray _ => NaN
  | JObject _ => NaN
  end.

(** Own-property lookup in an object literal. *)
Fixpoint get_prop (key : string) (props : list (string * JSValue)) : JSValue :=
  match props with
  | (k, v) :: rest => if String.eqb k key then v else get_prop key rest
  | [] => JUndefined
  end.

(** Exceptions the handlers can meet. *)
Inductive Exn : Type := ZodError | TypeError.

Inductive Outcome (A : Type) : Type :=
| Return (a : A)
| Throw (e : Exn).
Arguments Return {A} a.
Arguments Throw {A} e.

(** The member read [v.key] for a key that names no built-in property
    ([score] here): reading from [undefined] or [null] throws; a primitive or
    an array has no such member. *)
Definition get_member (v : JSValue) (key : string) : Outcome JSValue :=
  match v with
  | JUndefined | JNull => Throw TypeError
  | JObject props => Return (get_prop key props)
  | _ => Return JUndefined
  end.

(** ** Validation helpers ([__tests__]) and the handlers' arithmetic *)

(** [a >= b] and [a <= b] on numbers. *)
Definition js_ge (a b : JSNumber) : bool :=
  negb (isNaN a) && negb (isNaN b) && negb (js_lt a b).

Definition js_le (a b : JSNumber) : bool := js_ge b a.

(** [isValidYear(value)], with the year read from the clock as [currentYear]. *)
Definition isValidYear (currentYear : Z) (value : JSValue) : bool :=
  let year := Number value in
  Number_isInteger year && js_ge year (num_of_Z 1888)
  && js_le year (num_of_Z currentYear).

(** [isValidRating(value)]. *)
Definition isValidRating (value : JSValue) : bool :=
  let score := Number value in
  Number_isInteger score && js_ge score (num_of_Z 1) && js_le score (num_of_Z 5).

(** [Math.round]: the nearest integer, a tie going up. *)
Definition Math_round (x : Q) : Z := Qfloor (x + (1 # 2)).

Definition sum_scores (scores : list Z) : Z :=
  fold_left (fun a b => a + b) scores 0.

Definition length_Z {A : Type} (l : list A) : Z := Z.of_nat (List.length l).

(** The [avgRating] expression of the detail handler:
    [ratingScores.length > 0
       ? Math.round((ratingScores.reduce((a, b) => a + b, 0)
                     / ratingScores.length) * 10) / 10
       : 0]. *)
Definition avgRating_of (ratingScores : list Z) : Q :=
  if length_Z ratingScores >? 0
  then (inject_Z (Math_round
          ((inject_Z (sum_scores ratingScores)
            / inject_Z (length_Z ratingScores)) * inject_Z 10))
        / inject_Z 10)%Q
  else 0%Q.

(** [averageRating(ratings)] of the tests; [None] is [null]. *)
Definition averageRating (ratings : option (list Z)) : Q :=
  match ratings with
  | None => 0%Q
  | Some l =>
      if length_Z l =? 0 then 0%Q
      else (inject_Z (Math_round
              ((inject_Z (sum_scores l) / inject_Z (length_Z l))
               * inject_Z 10))
            / inject_Z 10)%Q
  end.

(** ** Tables and the insert schema ([shared/schema.ts]) *)

Inductive ColumnKind : Type := PgSerial | PgText | PgInteger | PgTimestamp.

Record Column : Type := mkColumn {
  col_key : string;
  col_kind : ColumnKind;
  col_notNull : bool;
  col_hasDefault : bool
}.

(** [pgTable("movies", ...)]: [serial] is not null and has a default. *)
Definition movies : list Column :=
  [ mkColumn "id" PgSerial true true;
    mkColumn "title" PgText true false;
    mkColumn "year" PgInteger true false;
    mkColumn "genre" PgText true false;
    mkColumn "createdAt" PgTimestamp false true ].

(** [pgTable("ratings", ...)]. *)
Definition ratings : list Column :=
  [ mkColumn "id" PgSerial true true;
    mkColumn "movieId" PgInteger true false;
    mkColumn "score" PgInteger true false;
    mkColumn "createdAt" PgTimestamp false true ].

Definition INT32_MIN : Z := -2147483648.
Definition INT32_MAX : Z := 2147483647.

(** The value check drizzle-zod derives from a column: [z.string()] for
    text, [z.number().min(INT32_MIN).max(INT32_MAX).int()] for the integer
    kinds, [z.date()] for a timestamp (no JSON-like value is a [Date]). *)
Definition column_check (k : ColumnKind) (v : JSValue) : bool :=
  match k, v with
  | PgText, JString _ => true
  | (PgInteger | PgSerial), JNumber n =>
      js_ge n (num_of_Z INT32_MIN) && js_le n (num_of_Z INT32_MAX)
      && Number_isInteger n
  | _, _ => false
  end.

Record ZodField : Type := mkZodField {
  zf_check : JSValue -> bool;
  zf_optional : bool;
  zf_nullable : bool
}.

Definition ZodObject : Type := list (string * ZodField).

(** [createInsertSchema(table)]: a nullable column accepts [null]; a column
    that is nullable or has a default may be left out. *)
Definition createInsertSchema (table : list Column) : ZodObject :=
  map (fun c =>
         (col_key c,
          mkZodField (column_check (col_kind c))
                     (negb (col_notNull c) || col_hasDefault c)
                     (negb (col_notNull c))))
      table.

(** [schema.omit({k: true, ...})]. *)
Definition omit (keys : list string) (schema : ZodObject) : ZodObject :=
  filter (fun kf => negb (existsb (String.eqb (fst kf)) keys)) schema.

(** Parsing the properties of an object against a shape: keys outside the
    shape are dropped, a missing optional key stays missing. *)
Fixpoint parse_shape (shape : ZodObject) (props : list (string * JSValue))
  : option (list (string * JSValue)) :=
  match shape with
  | [] => Some []
  | (k, f) :: shape' =>
      match parse_shape shape' props with
      | None => None
      | Some out =>
          match get_prop k props with
          | JUndefined => if zf_optional f then Some out else None
          | JNull => if zf_nullable f then Some ((k, JNull) :: out) else None
          | v => if zf_check f v then Some ((k, v) :: out) else None
          end
      end
  end.

(** [schema.safeParse(input)]: [None] is [{success: false}]. *)
Definition safeParse (schema : ZodObject) (input : JSValue)
  : option (list (string * JSValue)) :=
  match input with
  | JObject props => parse_shape schema props
  | _ => None
  end.

Definition insertMovieSchema : ZodObject :=
  omit ["id"; "createdAt"]%string (createInsertSchema movies).

Definition insertRatingSchema : ZodObject :=
  omit ["id"; "createdAt"]%string (createInsertSchema ratings).

(** [InsertMovie = z.infer<typeof insertMovieSchema>]. *)
Record InsertMovie : Type := mkInsertMovie {
  new_title : string;
  new_year : JSNumber;
  new_genre : string
}.

Definition infer_InsertMovie (o : list (string * JSValue)) : option InsertMovie :=
  match get_prop "title" o, get_prop "year" o, get_prop "genre" o with
  | JString t, JNumber y, JString g => Some (mkInsertMovie t y g)
  | _, _, _ => None
  end.

(** [insertMovieSchema.parse(input)]: throws [ZodError] on failure. *)
Definition insertMovieSchema_parse (input : JSValue) : Outcome InsertMovie :=
  match safeParse insertMovieSchema input with
  | Some o =>
      match infer_InsertMovie o with
      | Some m => Return m
      | None => Throw ZodError
      end
  | None => Throw ZodError
  end.

(** ** Rows and the database ([server/storage.ts]) *)

(** [Movie = typeof movies.$inferSelect].  [createdAt] is always filled by
    the column default, as no insert of the program supplies it. *)
Record Movie : Type := mkMovie {
  id : Z;
  title : string;
  year : Z;
  genre : string;
  createdAt : Z
}.

Record Rating : Type := mkRating {
  rating_id : Z;
  movieId : Z;
  score : Z;
  rating_createdAt : Z
}.

Record MovieWithStats : Type := mkMovieWithStats {
  stats_movie : Movie;
  avgRating : Q;
  totalRatings : Z
}.

Record MovieDetail : Type := mkMovieDetail {
  detail_stats : MovieWithStats;
  detail_ratings : list Z
}.

(** The object [{ avgRating, totalRatings }] returned by [addRating]. *)
Record RatingStats : Type := mkRatingStats {
  result_avgRating : Q;
  result_totalRatings : Z
}.

Record Db : Type := mkDb {
  movies_rows : list Movie;
  ratings_rows : list Rating;
  movies_id_seq : Z;
  ratings_id_seq : Z
}.

Definition empty_db : Db := mkDb [] [] 1 1.

(** *** SQL aggregates *)

(** [AVG(score)]: [None] is [NULL], the average of no row. *)
Definition sql_avg (scores : list Z) : option Q :=
  match scores with
  | [] => None
  | _ => Some (inject_Z (sum_scores scores) / inject_Z (length_Z scores))%Q
  end.

(** [ROUND(x::numeric, 1)]: to one decimal, a tie going away from zero. *)
Definition sql_round1 (x : Q) : Q :=
  if Qltb x 0
  then (- (inject_Z (Qfloor (- x * inject_Z 10 + (1 # 2))) / inject_Z 10))%Q
  else (inject_Z (Qfloor (x * inject_Z 10 + (1 # 2))) / inject_Z 10)%Q.

(** [ROUND(AVG(score)::numeric, 1)], then [Number(...)] of the column read
    back, which turns [NULL] into [0]. *)
Definition round_avg (scores : list Z) : option Q :=
  option_map sql_round1 (sql_avg scores).

Definition Number_of_column (c : option Q) : Q :=
  match c with Some q => q | None => 0%Q end.

(** [COALESCE(c, 0)]. *)
Definition coalesce0 (c : option Q) : option Q :=
  match c with Some q => Some q | None => Some 0%Q end.

(** *** Queries *)

(** [movies LEFT JOIN ratings ON ratings.movie_id = movies.id]: a movie
    without a rating yields one row whose rating side is [NULL]. *)
Definition leftJoin (ms : list Movie) (rs : list Rating)
  : list (Movie * option Rating) :=
  flat_map
    (fun m =>
       match filter (fun r => movieId r =? id m) rs with
       | [] => [(m, None)]
       | matched => map (fun r => (m, Some r)) matched
       end)
    ms.

Fixpoint add_to_group (row : Movie * option Rating)
  (groups : list (Movie * list (option Rating)))
  : list (Movie * list (option Rating)) :=
  match groups with
  | [] => [(fst row, [snd row])]
  | (m, rs) :: gs =>
      if id m =? id (fst row) then (m, rs ++ [snd row]) :: gs
      else (m, rs) :: add_to_group row gs
  end.

(** [GROUP BY movies.id], the groups in order of first appearance. *)
Definition groupBy (rows : list (Movie * option Rating))
  : list (Movie * list (option Rating)) :=
  fold_left (fun gs row => add_to_group row gs) rows [].

(** The non-[NULL] values of a column of a group. *)
Fixpoint non_null {A : Type} (col : Rating -> A) (rs : list (option Rating))
  : list A :=
  match rs with
  | Some r :: rs' => col r :: non_null col rs'
  | None :: rs' => non_null col rs'
  | [] => []
  end.

(** The selected columns of one group:
    [COALESCE(ROUND(AVG(ratings.score)::numeric, 1), 0)] and
    [COUNT(ratings.id)::int], each then passed through [Number]. *)
Definition select_stats (g : Movie * list (option Rating)) : MovieWithStats :=
  mkMovieWithStats (fst g)
    (Number_of_column (coalesce0 (round_avg (non_null score (snd g)))))
    (length_Z (non_null rating_id (snd g))).

Section Storage.

(** The collation of the store on titles, as a boolean [<=]. *)
Variable title_leb : string -> string -> bool.

Fixpoint insert_by_title (x : MovieWithStats) (l : list MovieWithStats)
  : list MovieWithStats :=
  match l with
  | [] => [x]
  | y :: l' =>
      if title_leb (title (stats_movie x)) (title (stats_movie y))
      then x :: y :: l'
      else y :: insert_by_title x l'
  end.

(** [ORDER BY movies.title ASC]. *)
Definition orderBy_title (l : list MovieWithStats) : list MovieWithStats :=
  fold_right insert_by_title [] l.

Definition getAllMovies (db : Db) : list MovieWithStats :=
  orderBy_title
    (map select_stats (groupBy (leftJoin (movies_rows db) (ratings_rows db)))).

End Storage.

(** [getMovieById(id)]: [result[0] || undefined]. *)
Definition getMovieById (i : JSNumber) (db : Db) : option Movie :=
  hd_error (filter (fun m => js_num_eq (num_of_Z (id m)) i) (movies_rows db)).

Fixpoint insert_newest_first (x : Rating) (l : list Rating) : list Rating :=
  match l with
  | [] => [x]
  | y :: l' =>
      if rating_createdAt y <=? rating_createdAt x
      then x :: y :: l'
      else y :: insert_newest_first x l'
  end.

(** [ORDER BY ratings.created_at DESC]. *)
Definition orderBy_createdAt_desc (l : list Rating) : list Rating :=
  fold_right insert_newest_first [] l.

Definition getRatingsForMovie (mid : JSNumber) (db : Db) : list Z :=
  map score
    (orderBy_createdAt_desc
       (filter (fun r => js_num_eq (num_of_Z (movieId r)) mid)
               (ratings_rows db))).

(** One row of [db.insert(movies).values(...)] executed at [now]. *)
Definition insert_movie (now : Z) (data : InsertMovie) (db : Db) : Movie * Db :=
  let row := mkMovie (movies_id_seq db) (new_title data)
                     (num_to_Z (new_year data)) (new_genre data) now in
  (row, mkDb (movies_rows db ++ [row]) (ratings_rows db)
             (movies_id_seq db + 1) (ratings_id_seq db)).

(** [addMovie(data)]: [insert ... returning], [result[0]]. *)
Definition addMovie (now : Z) (data : InsertMovie) (db : Db) : Movie * Db :=
  insert_movie now data db.

(** One row of [db.insert(ratings).values({ movieId, score })]. *)
Definition insert_rating (now : Z) (mid sc : Z) (db : Db) : Db :=
  mkDb (movies_rows db)
       (ratings_rows db ++ [mkRating (ratings_id_seq db) mid sc now])
       (movies_id_seq db) (ratings_id_seq db + 1).

Definition scores_where_movieId (mid : Z) (db : Db) : list Rating :=
  filter (fun r => movieId r =? mid) (ratings_rows db).

(** [addRating(movieId, score)]: the insert, then the aggregate select on
    the table as the insert left it. *)
Definition addRating (now : Z) (mid sc : Z) (db : Db) : RatingStats * Db :=
  let db' := insert_rating now mid sc db in
  let selected := scores_where_movieId mid db' in
  (mkRatingStats (Number_of_column (round_avg (map score selected)))
                 (length_Z (map rating_id selected)),
   db').

(** *** Seeding *)

Definition seedData : list InsertMovie :=
  [ mkInsertMovie "The Godfather" (num_of_Z 1972) "Crime";
    mkInsertMovie "Pulp Fiction" (num_of_Z 1994) "Crime";
    mkInsertMovie "The Shawshank Redemption" (num_of_Z 1994) "Drama";
    mkInsertMovie "Schindler's List" (num_of_Z 1993) "Drama";
    mkInsertMovie "2001: A Space Odyssey" (num_of_Z 1968) "Sci-Fi";
    mkInsertMovie "Blade Runner" (num_of_Z 1982) "Sci-Fi";
    mkInsertMovie "Chinatown" (num_of_Z 1974) "Thriller";
    mkInsertMovie "Mulholland Drive" (num_of_Z 2001) "Thriller";
    mkInsertMovie "Singin' in the Rain" (num_of_Z 1952) "Musical";
    mkInsertMovie "Sunset Boulevard" (num_of_Z 1950) "Drama" ].

(** The index into [allMovies] and the score of each sample rating. *)
Definition sampleRatings_plan : list (Z * Z) :=
  [ (0, 5); (0, 5); (0, 4);
    (1, 4); (1, 5);
    (2, 5); (2, 5); (2, 5);
    (3, 5); (3, 4);
    (4, 4); (4, 3);
    (5, 4); (5, 4); (5, 5);
    (6, 3);
    (7, 4); (7, 3);
    (8, 5); (8, 4); (8, 5);
    (9, 4); (9, 3) ].

(** [{ movieId: allMovies[i].id, score }] for each planned rating; reading
    [.id] of a missing element throws. *)
Fixpoint sampleRatings (allMovies : list Movie) (plan : list (Z * Z))
  : Outcome (list (Z * Z)) :=
  match plan with
  | [] => Return []
  | (i, sc) :: plan' =>
      match nth_error allMovies (Z.to_nat i) with
      | None => Throw TypeError
      | Some m =>
          match sampleRatings allMovies plan' with
          | Return rest => Return ((id m, sc) :: rest)
          | Throw e => Throw e
          end
      end
  end.

Definition insert_movies (now : Z) (data : list InsertMovie) (db : Db) : Db :=
  fold_left (fun d row => snd (insert_movie now row d)) data db.

Definition insert_ratings (now : Z) (values : list (Z * Z)) (db : Db) : Db :=
  fold_left (fun d v => insert_rating now (fst v) (snd v) d) values db.

(** [seedMovies()]; the two inserts run at [now1] and [now2]. *)
Definition seedMovies (now1 now2 : Z) (db : Db) : Outcome unit * Db :=
  let existing := firstn 1 (map id (movies_rows db)) in
  if length_Z existing >? 0 then (Return tt, db)
  else
    let db1 := insert_movies now1 seedData db in
    let allMovies := movies_rows db1 in
    match sampleRatings allMovies sampleRatings_plan with
    | Throw e => (Throw e, db1)
    | Return values => (Return tt, insert_ratings now2 values db1)
    end.

(** ** Request handlers ([server/routes.ts]) *)

Inductive Payload : Type :=
| ErrorJson (error : string)
| MovieJson (m : Movie)
| MoviesJson (l : list MovieWithStats)
| MovieDetailJson (d : MovieDetail)
| RatingStatsJson (r : RatingStats).

Record Response : Type := mkResponse {
  status : Z;
  json : Payload
}.

Definition error_response (code : Z) (msg : string) : Response :=
  mkResponse code (ErrorJson msg).

(** [registerRoutes] first awaits [storage.seedMovies()]; the handlers then
    serve from the database it leaves. *)
Definition registerRoutes (now1 now2 : Z) (db : Db) : Outcome unit * Db :=
  seedMovies now1 now2 db.

(** [GET /api/movies]. *)
Definition get_api_movies (title_leb : string -> string -> bool) (db : Db)
  : Response :=
  mkResponse 200 (MoviesJson (getAllMovies title_leb db)).

(** [POST /api/movies]; [currentYear] is [new Date().getFullYear()]. *)
Definition post_api_movies (currentYear now : Z) (req_body : JSValue) (db : Db)
  : Response * Db :=
  match insertMovieSchema_parse req_body with
  | Throw ZodError => (error_response 400 "Invalid fields", db)
  | Throw _ => (error_response 500 "Failed to add movie", db)
  | Return parsed =>
      let year := Number (JNumber (new_year parsed)) in
      if negb (Number_isInteger year) || js_lt year (num_of_Z 1888)
         || js_gt year (num_of_Z currentYear)
      then (error_response 400 "Invalid year", db)
      else
        let (movie, db') :=
          addMovie now
            (mkInsertMovie (new_title parsed) year (new_genre parsed)) db in
        (mkResponse 201 (MovieJson movie), db')
  end.

(** [GET /api/movies/:id]. *)
Definition get_api_movies_id (params_id : string) (db : Db) : Response :=
  let i := Number (JString params_id) in
  if isNaN i then error_response 400 "Invalid ID"
  else
    match getMovieById i db with
    | None => error_response 404 "Not found"
    | Some movie =>
        let ratingScores := getRatingsForMovie i db in
        mkResponse 200
          (MovieDetailJson
             (mkMovieDetail
                (mkMovieWithStats movie (avgRating_of ratingScores)
                                  (length_Z ratingScores))
                ratingScores))
    end.

(** [POST /api/movies/:id/rate].  Both coercions come before the first
    check, so a body that cannot be read from is caught as a failure. *)
Definition post_api_movies_id_rate (now : Z) (params_id : string)
  (req_body : JSValue) (db : Db) : Response * Db :=
  let i := Number (JString params_id) in
  match get_member req_body "score" with
  | Throw _ => (error_response 500 "Failed to add rating", db)
  | Return score_value =>
      let sc := Number score_value in
      if isNaN i then (error_response 400 "Invalid ID", db)
      else if negb (Number_isInteger sc) || js_lt sc (num_of_Z 1)
              || js_gt sc (num_of_Z 5)
      then (error_response 400 "Invalid rating", db)
      else
        match getMovieById i db with
        | None => (error_response 404 "Not found", db)
        | Some movie =>
            let (result, db') := addRating now (num_to_Z i) (num_to_Z sc) db in
            (mkResponse 200 (RatingStatsJson result), db')
        end
  end.

(** ** The server as a transition system

    The requests that write, and the states the database can be in: the
    server starts on an empty database, seeds it before it serves, may be
    started again on the database it left, and serves one request at a
    time. *)

Inductive WriteRequest : Type :=
| POST_movies (req_body : JSValue)
| POST_rate (params_id : string) (req_body : JSValue).

Definition serve (currentYear now : Z) (r : WriteRequest) (db : Db)
  : Response * Db :=
  match r with
  | POST_movies req_body => post_api_movies currentYear now req_body db
  | POST_rate params_id req_body =>
      post_api_movies_id_rate now params_id req_body db
  end.

Inductive reachable : Db -> Prop :=
| reachable_start (now1 now2 : Z) :
    reachable (snd (registerRoutes now1 now2 empty_db))
| reachable_restart (db : Db) (now1 now2 : Z) :
    reachable db -> reachable (snd (registerRoutes now1 now2 db))
| reachable_serve (db : Db) (currentYear now : Z) (r : WriteRequest) :
    reachable db -> reachable (snd (serve currentYear now r db)).

(** ** Client helpers ([client/src/pages/MovieList.tsx], [MovieDetail.tsx]) *)

(** A string of the page is its list of UTF-16 code units. *)
Definition BLACK_STAR : Z := 9733.
Definition WHITE_STAR : Z := 9734.

(** A call that returns or throws [RangeError]. *)
Inductive Completion (A : Type) : Type :=
| Normal (a : A)
| RangeError.
Arguments Normal {A} a.
Arguments RangeError {A}.

(** [Math.round] on any number: [NaN] and the infinities are kept. *)
Definition js_Math_round (n : JSNumber) : JSNumber :=
  match n with
  | Finite q => num_of_Z (Math_round q)
  | _ => n
  end.

(** The binary [-] on numbers. *)
Definition js_sub (a b : JSNumber) : JSNumber :=
  match a, b with
  | NaN, _ | _, NaN => NaN
  | Finite x, Finite y => Finite (x - y)%Q
  | Finite _, Infinity s => Infinity (negb s)
  | Infinity s, Finite _ => Infinity s
  | Infinity s, Infinity t => if Bool.eqb s t then NaN else Infinity s
  end.

(** [piece.repeat(count)]: the count is truncated to an integer ([NaN]
    counts as 0); a negative or infinite count throws. *)
Definition String_repeat (piece : list Z) (count : JSNumber)
  : Completion (list Z) :=
  match count with
  | NaN => Normal []
  | Infinity _ => RangeError
  | Finite q =>
      let n := Z.quot (Qnum q) (Zpos (Qden q)) in
      if n <? 0 then RangeError
      else Normal (List.concat (repeat piece (Z.to_nat n)))
  end.

(** [formatStars(score)]. *)
Definition formatStars (score : JSNumber) : Completion (list Z) :=
  let rounded := js_Math_round score in
  match String_repeat [BLACK_STAR] rounded with
  | RangeError => RangeError
  | Normal filled =>
      match String_repeat [WHITE_STAR] (js_sub (num_of_Z 5) rounded) with
      | RangeError => RangeError
      | Normal hollow => Normal (filled ++ hollow)
      end
  end.

(** [String(n)] of an integer below 10^21 in absolute value, as the
    template literals [`/movies/${movie.id}`] and [`/api/movies/${id}/rate`]
    print an id: decimal digits, after a minus sign when negative. *)
Definition String_of_integer (z : Z) : string :=
  DecimalString.NilZero.string_of_int (Z.to_int z).



(** [String.prototype.trim]. *)
Definition String_trim (s : string) : string :=
  string_of_list_ascii (trim (list_ascii_of_string s)).

(** The three inputs of the add-movie form. *)
Record MovieForm : Type := mkMovieForm {
  form_title : string;
  form_year : string;
  form_genre : string
}.

(** [handleSubmit]: [None] when it returns without calling the mutation,
    otherwise the object handed to it. *)
Definition handleSubmit (f : MovieForm) : option InsertMovie :=
  if (String.eqb (String_trim (form_title f)) ""
      || String.eqb (String_trim (form_year f)) ""
      || String.eqb (String_trim (form_genre f)) "")%bool
  then None
  else Some (mkInsertMovie (String_trim (form_title f))
                           (Number (JString (form_year f)))
                           (String_trim (form_genre f))).

(** ** Vocabulary of the specification *)

(** The number [n] is the integer [k]. *)
Definition is_integer_value (n : JSNumber) (k : Z) : Prop :=
  match n with
  | Finite q => (q == inject_Z k)%Q
  | _ => False
  end.

(** [sum(scores) / count(scores)]. *)
Definition mean (scores : list Z) : Q :=
  (inject_Z (fold_right Z.add 0%Z scores)
   / inject_Z (Z.of_nat (List.length scores)))%Q.

(** [k] is [x] rounded to the nearest integer, a tie going up. *)
Definition round_half_up (x : Q) (k : Z) : Prop :=
  (inject_Z k - (1 # 2) <= x)%Q /\ (x < inject_Z k + (1 # 2))%Q.

(** [r] has one decimal and is a nearest such value to [x]. *)
Definition rounded_to_one_decimal (x r : Q) : Prop :=
  exists k : Z, (r == inject_Z k / inject_Z 10)%Q
                /\ (Qabs (x - r) <= 1 # 20)%Q.

(** The body [{ title, year, genre }] of a create request. *)
Definition movie_body (t : string) (y : Z) (g : string) : JSValue :=
  JObject [ ("title"%string, JString t);
            ("year"%string, JNumber (num_of_Z y));
            ("genre"%string, JString g) ].

(** The body [{ score }] of a rating request. *)
Definition score_body (v : JSValue) : JSValue :=
  JObject [ ("score"%string, v) ].

(** [movies.id] is a primary key drawn from the sequence. *)
Definition db_wf (db : Db) : Prop :=
  NoDup (map id (movies_rows db))
  /\ Forall (fun m => id m < movies_id_seq db) (movies_rows db).

Definition ratings_of (m : Movie) (db : Db) : list Rating :=
  filter (fun r => movieId r =? id m) (ratings_rows db).

(** The joined rows of one movie: its ratings, or one [NULL] side. *)
Definition group_rows (m : Movie) (rs : list Rating) : list (option Rating) :=
  match filter (fun r => movieId r =? id m) rs with
  | [] => [None]
  | matched => map Some matched
  end.

(** A movie with the aggregates of its own ratings. *)
Definition with_stats (db : Db) (m : Movie) : MovieWithStats :=
  mkMovieWithStats m
    (Number_of_column (coalesce0 (round_avg (map score (ratings_of m db)))))
    (length_Z (ratings_of m db)).

(** [a] comes no later than [b] in the order on titles. *)
Definition title_ordered (title_leb : string -> string -> bool)
  (a b : MovieWithStats) : Prop :=
  title_leb (title (stats_movie a)) (title (stats_movie b)) = true.

(** Every rating belongs to a stored movie and holds a score from 1 to 5,
    and no movie predates 1888. *)
Definition db_valid (db : Db) : Prop :=
  db_wf db
  /\ Forall (fun r => (exists m, In m (movies_rows db) /\ id m = movieId r)
                      /\ 1 <= score r <= 5)
            (ratings_rows db)
  /\ Forall (fun m => 1888 <= year m) (movies_rows db).


(** The object literal [{ title, year, genre }] as a value. *)
Definition object_of_InsertMovie (d : InsertMovie) : JSValue :=
  JObject [ ("title"%string, JString (new_title d));
            ("year"%string, JNumber (new_year d));
            ("genre"%string, JString (new_genre d)) ].

(** The digits of a decimal numeral, most significant first. *)
Fixpoint uint_digits (d : Decimal.uint) : list Z :=
  match d with
  | Decimal.Nil => []
  | Decimal.D0 d => 0 :: uint_digits d
  | Decimal.D1 d => 1 :: uint_digits d
  | Decimal.D2 d => 2 :: uint_digits d
  | Decimal.D3 d => 3 :: uint_digits d
  | Decimal.D4 d => 4 :: uint_digits d
  | Decimal.D5 d => 5 :: uint_digits d
  | Decimal.D6 d => 6 :: uint_digits d
  | Decimal.D7 d => 7 :: uint_digits d
  | Decimal.D8 d => 8 :: uint_digits d
  | Decimal.D9 d => 9 :: uint_digits d
  end.

(** The characters of a decimal numeral. *)
Definition uint_chars (d : Decimal.uint) : list ascii :=
  list_ascii_of_string (DecimalString.NilEmpty.string_of_uint d).

(** * Properties *)

(** ** Numbers *)

Lemma Qltb_lt (a b : Q) : Qltb a b = true <-> (a < b)%Q.
Proof. unfold Qltb, Qlt. apply Z.ltb_lt. Qed.

Lemma Qltb_ge (a b : Q) : Qltb a b = false <-> (b <= a)%Q.
Proof. unfold Qltb, Qle. rewrite Z.ltb_ge. reflexivity. Qed.

Lemma Q_is_integer_iff (q : Q) :
  Q_is_integer q = true <-> exists k : Z, (q == inject_Z k)%Q.
Proof.
  unfold Q_is_integer, Qeq. destruct q as [n d]. simpl. split.
  - intros H. apply Z.eqb_eq in H. exists (n / Zpos d).
    rewrite Z.mul_1_r. rewrite Z.mul_comm.
    apply Z.div_exact in H; [exact H | discriminate].
  - intros [k Hk]. apply Z.eqb_eq. rewrite Z.mul_1_r in Hk. subst n.
    apply Z.mod_mul. discriminate.
Qed.

Lemma is_integer_value_isInteger (n : JSNumber) (k : Z) :
  is_integer_value n k -> Number_isInteger n = true.
Proof.
  destruct n as [| s | q]; simpl; try contradiction.
  intros H. apply Q_is_integer_iff. now exists k.
Qed.

Lemma Number_isInteger_value (n : JSNumber) :
  Number_isInteger n = true -> exists k : Z, is_integer_value n k.
Proof.
  destruct n as [| s | q]; simpl; try discriminate.
  apply Q_is_integer_iff.
Qed.

Lemma js_ge_integer (n : JSNumber) (k lo : Z) :
  is_integer_value n k -> js_ge n (num_of_Z lo) = true <-> lo <= k.
Proof.
  destruct n as [| s | q]; simpl; try contradiction. intros Hq.
  unfold js_ge. simpl. rewrite negb_true_iff, Qltb_ge, Hq, <- Zle_Qle.
  reflexivity.
Qed.

Lemma js_le_integer (n : JSNumber) (k hi : Z) :
  is_integer_value n k -> js_le n (num_of_Z hi) = true <-> k <= hi.
Proof.
  destruct n as [| s | q]; simpl; try contradiction. intros Hq.
  unfold js_le, js_ge. simpl. rewrite negb_true_iff, Qltb_ge, Hq, <- Zle_Qle.
  reflexivity.
Qed.

(** An integer check followed by a range check, in the two forms the
    program writes it: [isInteger && >= lo && <= hi] in the helpers and
    [!isInteger || < lo || > hi] in the handlers. *)
Lemma range_check_negation (n : JSNumber) (lo hi : Z) :
  (negb (Number_isInteger n) || js_lt n (num_of_Z lo)
   || js_gt n (num_of_Z hi))%bool
  = negb (Number_isInteger n && js_ge n (num_of_Z lo)
          && js_le n (num_of_Z hi)).
Proof.
  destruct n as [| s | q]; try reflexivity.
  unfold js_le, js_ge, js_gt. simpl.
  destruct (Q_is_integer q), (Qltb q (inject_Z lo)), (Qltb (inject_Z hi) q);
    reflexivity.
Qed.

Lemma range_check_iff (n : JSNumber) (lo hi : Z) :
  (Number_isInteger n && js_ge n (num_of_Z lo) && js_le n (num_of_Z hi))%bool
  = true
  <-> exists k : Z, is_integer_value n k /\ lo <= k <= hi.
Proof.
  split.
  - intros H. apply andb_true_iff in H. destruct H as [H Hhi].
    apply andb_true_iff in H. destruct H as [Hint Hlo].
    destruct (Number_isInteger_value n Hint) as [k Hk]. exists k.
    split; [exact Hk |].
    split; [apply (js_ge_integer n k lo Hk) | apply (js_le_integer n k hi Hk)];
      assumption.
  - intros [k [Hk [Hlo Hhi]]].
    rewrite (is_integer_value_isInteger n k Hk).
    rewrite (proj2 (js_ge_integer n k lo Hk) Hlo).
    rewrite (proj2 (js_le_integer n k hi Hk) Hhi). reflexivity.
Qed.

(** ** Validation of ratings and years *)

Lemma isValidRating_iff (v : JSValue) :
  isValidRating v = true
  <-> exists k : Z, is_integer_value (Number v) k /\ 1 <= k <= 5.
Proof. unfold isValidRating. apply range_check_iff. Qed.

(** The inline check of the rating handler is the negated helper. *)
Lemma rating_check_negation (v : JSValue) :
  (negb (Number_isInteger (Number v)) || js_lt (Number v) (num_of_Z 1)
   || js_gt (Number v) (num_of_Z 5))%bool
  = negb (isValidRating v).
Proof. unfold isValidRating. apply range_check_negation. Qed.

(** C2.  [isValidRating(v)] holds exactly when [Number(v)] is an integer
    between 1 and 5; it is the negation of the check the rating handler
    writes inline; strings that read as no number, [null], [undefined],
    [NaN] and [3.5] are rejected, and [true], which coerces to 1, is
    accepted. *)
Theorem isValidRating_spec :
  (forall v : JSValue,
      isValidRating v = true
      <-> exists k : Z, is_integer_value (Number v) k /\ 1 <= k <= 5)
  /\ (forall v : JSValue,
         (negb (Number_isInteger (Number v)) || js_lt (Number v) (num_of_Z 1)
          || js_gt (Number v) (num_of_Z 5))%bool
         = negb (isValidRating v))
  /\ (forall s : string,
         (isNaN (StringToNumber s) && isValidRating (JString s))%bool = false)
  /\ isValidRating (JString "five") = false
  /\ isValidRating (JString "great") = false
  /\ isValidRating (JString "") = false
  /\ isValidRating JNull = false
  /\ isValidRating JUndefined = false
  /\ isValidRating (JNumber NaN) = false
  /\ isValidRating (JNumber (Finite (35 # 10))) = false
  /\ Number (JBool true) = num_of_Z 1
  /\ isValidRating (JBool true) = true.
Proof.
  split; [| split; [| split]].
  - exact isValidRating_iff.
  - exact rating_check_negation.
  - intros s. unfold isValidRating. simpl.
    destruct (StringToNumber s); reflexivity.
  - repeat split; reflexivity.
Qed.

(** ** Integers as numbers *)

Lemma Number_isInteger_num_of_Z (k : Z) :
  Number_isInteger (num_of_Z k) = true.
Proof.
  unfold num_of_Z, Number_isInteger, Q_is_integer. simpl.
  now rewrite Z.mod_1_r.
Qed.

Lemma js_lt_num_of_Z (a b : Z) : js_lt (num_of_Z a) (num_of_Z b) = (a <? b).
Proof. unfold num_of_Z, js_lt, Qltb. simpl. now rewrite !Z.mul_1_r. Qed.

Lemma js_ge_num_of_Z (a b : Z) : js_ge (num_of_Z a) (num_of_Z b) = (b <=? a).
Proof.
  unfold js_ge. rewrite js_lt_num_of_Z. simpl.
  destruct (Z.ltb_spec a b), (Z.leb_spec b a); try reflexivity; lia.
Qed.

Lemma js_le_num_of_Z (a b : Z) : js_le (num_of_Z a) (num_of_Z b) = (a <=? b).
Proof. unfold js_le. apply js_ge_num_of_Z. Qed.

Lemma num_to_Z_num_of_Z (k : Z) : num_to_Z (num_of_Z k) = k.
Proof. unfold num_to_Z, num_of_Z. apply Qfloor_Z. Qed.

(** ** The insert schema *)

Lemma insertMovieSchema_shape :
  insertMovieSchema
  = [ ("title"%string, mkZodField (column_check PgText) false false);
      ("year"%string, mkZodField (column_check PgInteger) false false);
      ("genre"%string, mkZodField (column_check PgText) false false) ].
Proof. reflexivity. Qed.

(** What the schema does on an object: it reads the three keys and nothing
    else. *)
Lemma safeParse_insertMovieSchema_object (props : list (string * JSValue)) :
  safeParse insertMovieSchema (JObject props)
  = match get_prop "title" props, get_prop "year" props,
          get_prop "genre" props with
    | JString t, JNumber y, JString g =>
        if column_check PgInteger (JNumber y)
        then Some [ ("title"%string, JString t);
                    ("year"%string, JNumber y);
                    ("genre"%string, JString g) ]
        else None
    | _, _, _ => None
    end.
Proof.
  rewrite insertMovieSchema_shape. unfold safeParse, parse_shape.
  cbn [zf_check zf_optional zf_nullable].
  destruct (get_prop "genre" props) as [| | b | n | g | l | o];
    destruct (get_prop "year" props) as [| | b' | y | s' | l' | o'];
    destruct (get_prop "title" props) as [| | b'' | n'' | t | l'' | o''];
    try reflexivity;
    cbn [column_check];
    try (destruct (js_ge y (num_of_Z INT32_MIN) && js_le y (num_of_Z INT32_MAX)
                   && Number_isInteger y)%bool; reflexivity).
Qed.

Lemma safeParse_insertMovieSchema_iff (v : JSValue)
  (o : list (string * JSValue)) :
  safeParse insertMovieSchema v = Some o
  <-> exists props t y g,
        v = JObject props
        /\ get_prop "title" props = JString t
        /\ get_prop "year" props = JNumber y
        /\ column_check PgInteger (JNumber y) = true
        /\ get_prop "genre" props = JString g
        /\ o = [ ("title"%string, JString t);
                 ("year"%string, JNumber y);
                 ("genre"%string, JString g) ].
Proof.
  split.
  - destruct v as [| | b | n | s | l | props]; try discriminate.
    rewrite safeParse_insertMovieSchema_object.
    destruct (get_prop "title" props) as [| | ? | ? | t | ? | ?] eqn:Ht;
      try discriminate.
    destruct (get_prop "year" props) as [| | ? | y | ? | ? | ?] eqn:Hy;
      try discriminate.
    destruct (get_prop "genre" props) as [| | ? | ? | g | ? | ?] eqn:Hg;
      try discriminate.
    destruct (column_check PgInteger (JNumber y)) eqn:Hc; try discriminate.
    intros H. injection H as <-. exists props, t, y, g. repeat split; assumption || reflexivity.
  - intros (props & t & y & g & -> & Ht & Hy & Hc & Hg & ->).
    rewrite safeParse_insertMovieSchema_object, Ht, Hy, Hg, Hc. reflexivity.
Qed.

(** [parse] throws nothing but [ZodError], and returns the typed view of
    what [safeParse] returns. *)
Lemma insertMovieSchema_parse_cases (v : JSValue) :
  (safeParse insertMovieSchema v = None
   /\ insertMovieSchema_parse v = Throw ZodError)
  \/ (exists t y g,
        safeParse insertMovieSchema v
        = Some [ ("title"%string, JString t);
                 ("year"%string, JNumber y);
                 ("genre"%string, JString g) ]
        /\ insertMovieSchema_parse v = Return (mkInsertMovie t y g)).
Proof.
  unfold insertMovieSchema_parse.
  destruct (safeParse insertMovieSchema v) as [o |] eqn:Hp.
  - right. apply safeParse_insertMovieSchema_iff in Hp.
    destruct Hp as (props & t & y & g & _ & _ & _ & _ & _ & ->).
    exists t, y, g. split; reflexivity.
  - left. split; reflexivity.
Qed.

Lemma column_check_int32 (y : Z) :
  column_check PgInteger (JNumber (num_of_Z y))
  = ((INT32_MIN <=? y) && (y <=? INT32_MAX))%bool.
Proof.
  cbn [column_check].
  rewrite js_ge_num_of_Z, js_le_num_of_Z, Number_isInteger_num_of_Z.
  apply andb_true_r.
Qed.

Lemma parse_movie_body (t g : string) (y : Z) :
  INT32_MIN <= y <= INT32_MAX ->
  insertMovieSchema_parse (movie_body t y g)
  = Return (mkInsertMovie t (num_of_Z y) g).
Proof.
  intros Hy. unfold insertMovieSchema_parse, movie_body.
  rewrite safeParse_insertMovieSchema_object.
  cbn [get_prop String.eqb Ascii.eqb Bool.eqb].
  rewrite column_check_int32.
  replace ((INT32_MIN <=? y) && (y <=? INT32_MAX))%bool with true
    by (symmetry; apply andb_true_iff; split; apply Z.leb_le; lia).
  reflexivity.
Qed.

(** The create handler on a body of the three fields with an integer
    year. *)
Lemma post_api_movies_movie_body (currentYear now : Z) (t g : string) (y : Z)
  (db : Db) :
  INT32_MIN <= y <= INT32_MAX ->
  post_api_movies currentYear now (movie_body t y g) db
  = if ((1888 <=? y) && (y <=? currentYear))%bool
    then (mkResponse 201
            (MovieJson (mkMovie (movies_id_seq db) t y g now)),
          mkDb (movies_rows db ++ [mkMovie (movies_id_seq db) t y g now])
               (ratings_rows db) (movies_id_seq db + 1) (ratings_id_seq db))
    else (error_response 400 "Invalid year", db).
Proof.
  intros Hy. unfold post_api_movies. rewrite (parse_movie_body t g y Hy).
  cbn [Number new_year new_title new_genre].
  rewrite Number_isInteger_num_of_Z. unfold js_gt. rewrite !js_lt_num_of_Z.
  cbn [negb orb].
  destruct (Z.ltb_spec y 1888), (Z.ltb_spec currentYear y),
    (Z.leb_spec 1888 y), (Z.leb_spec y currentYear);
    try lia; cbn [orb andb]; try reflexivity.
  unfold addMovie, insert_movie. cbn [new_year new_title new_genre].
  rewrite num_to_Z_num_of_Z. reflexivity.
Qed.

(** ** The year check *)

(** C3.  [isValidYear(v)] holds exactly when [Number(v)] is an integer
    between 1888 and the current year; it is the negation of the check the
    create handler writes inline; with the current year at least 1888, a
    create request is refused with "Invalid year" for 1887 and for the year
    after the current one, and answered 201 for 1888 and for the current
    year. *)
Theorem isValidYear_spec (currentYear : Z)
  (Hclock : 1888 <= currentYear < INT32_MAX) :
  (forall v : JSValue,
      isValidYear currentYear v = true
      <-> exists k : Z, is_integer_value (Number v) k
                        /\ 1888 <= k <= currentYear)
  /\ (forall v : JSValue,
         (negb (Number_isInteger (Number v))
          || js_lt (Number v) (num_of_Z 1888)
          || js_gt (Number v) (num_of_Z currentYear))%bool
         = negb (isValidYear currentYear v))
  /\ (forall now t g db,
         post_api_movies currentYear now (movie_body t 1887 g) db
         = (error_response 400 "Invalid year", db))
  /\ (forall now t g db,
         status (fst (post_api_movies currentYear now (movie_body t 1888 g) db))
         = 201)
  /\ (forall now t g db,
         status (fst (post_api_movies currentYear now
                        (movie_body t currentYear g) db))
         = 201)
  /\ (forall now t g db,
         post_api_movies currentYear now (movie_body t (currentYear + 1) g) db
         = (error_response 400 "Invalid year", db)).
Proof.
  unfold INT32_MAX in Hclock.
  assert (Hb : forall y, -1 <= y <= currentYear + 1 ->
                         INT32_MIN <= y <= INT32_MAX)
    by (unfold INT32_MIN, INT32_MAX; lia).
  split; [| split; [| split; [| split; [| split]]]].
  - intros v. unfold isValidYear. apply range_check_iff.
  - intros v. unfold isValidYear. apply range_check_negation.
  - intros now t g db. rewrite post_api_movies_movie_body by (apply Hb; lia).
    reflexivity.
  - intros now t g db. rewrite post_api_movies_movie_body by (apply Hb; lia).
    replace (1888 <=? currentYear) with true by (symmetry; apply Z.leb_le; lia).
    reflexivity.
  - intros now t g db. rewrite post_api_movies_movie_body by (apply Hb; lia).
    replace (1888 <=? currentYear) with true by (symmetry; apply Z.leb_le; lia).
    rewrite Z.leb_refl. reflexivity.
  - intros now t g db. rewrite post_api_movies_movie_body by (apply Hb; lia).
    replace (currentYear + 1 <=? currentYear) with false
      by (symmetry; apply Z.leb_gt; lia).
    rewrite andb_false_r. reflexivity.
Qed.

Lemma isValidYear_spec_witness :
  1888 <= 2026 < INT32_MAX
  /\ post_api_movies 2026 0 (movie_body "Early Film" 1887 "Drama") empty_db
     = (error_response 400 "Invalid year", empty_db)
  /\ status (fst (post_api_movies 2026 0
                    (movie_body "Roundhay Garden Scene" 1888 "Short") empty_db))
     = 201.
Proof.
  assert (Hclock : 1888 <= 2026 < INT32_MAX) by (unfold INT32_MAX; lia).
  split; [exact Hclock |]. split.
  - exact (proj1 (proj2 (proj2 (isValidYear_spec 2026 Hclock)))
             0 "Early Film"%string "Drama"%string empty_db).
  - exact (proj1 (proj2 (proj2 (proj2 (isValidYear_spec 2026 Hclock))))
             0 "Roundhay Garden Scene"%string "Short"%string empty_db).
Defined.



(** C4.  What [insertMovieSchema] accepts: exactly the objects whose
    [title] and [genre] are strings and whose [year] is a 32-bit integer
    number; the parsed value holds these three keys only, so extra fields
    and an [id] are dropped.  The strings are not required to be non-empty:
    an empty title or an empty genre passes the schema, and the create
    handler answers 201 for it. *)
Theorem insertMovieSchema_accepts_empty_strings :
  (forall v o,
      safeParse insertMovieSchema v = Some o
      <-> exists props t y g,
            v = JObject props
            /\ get_prop "title" props = JString t
            /\ get_prop "year" props = JNumber y
            /\ column_check PgInteger (JNumber y) = true
            /\ get_prop "genre" props = JString g
            /\ o = [ ("title"%string, JString t);
                     ("year"%string, JNumber y);
                     ("genre"%string, JString g) ])
  /\ safeParse insertMovieSchema (movie_body "" 1942 "Drama")
     = Some [ ("title"%string, JString "");
              ("year"%string, JNumber (num_of_Z 1942));
              ("genre"%string, JString "Drama") ]
  /\ safeParse insertMovieSchema (movie_body "Casablanca" 1942 "")
     = Some [ ("title"%string, JString "Casablanca");
              ("year"%string, JNumber (num_of_Z 1942));
              ("genre"%string, JString "") ]
  /\ post_api_movies 2026 0 (movie_body "" 1942 "Drama") empty_db
     = (mkResponse 201 (MovieJson (mkMovie 1 "" 1942 "Drama" 0)),
        mkDb [mkMovie 1 "" 1942 "Drama" 0] [] 2 1).
Proof.
  split; [exact safeParse_insertMovieSchema_iff |].
  repeat split; reflexivity.
Qed.

(** The parts of the schema contract that do not concern empty strings:
    a missing or ill-typed field is refused, and nothing but the three
    fields reaches the parsed value. *)
Lemma insertMovieSchema_strips_and_requires :
  (forall v o k,
      safeParse insertMovieSchema v = Some o ->
      k <> "title"%string -> k <> "year"%string -> k <> "genre"%string ->
      get_prop k o = JUndefined)
  /\ (forall props props',
         get_prop "title" props = get_prop "title" props' ->
         get_prop "year" props = get_prop "year" props' ->
         get_prop "genre" props = get_prop "genre" props' ->
         safeParse insertMovieSchema (JObject props)
         = safeParse insertMovieSchema (JObject props'))
  /\ safeParse insertMovieSchema (JObject []) = None
  /\ safeParse insertMovieSchema JUndefined = None
  /\ safeParse insertMovieSchema
       (JObject [ ("year"%string, JNumber (num_of_Z 1942));
                  ("genre"%string, JString "Drama") ]) = None
  /\ safeParse insertMovieSchema
       (JObject [ ("title"%string, JString "Casablanca");
                  ("year"%string, JString "not a year");
                  ("genre"%string, JString "Drama") ]) = None
  /\ safeParse insertMovieSchema
       (JObject [ ("id"%string, JNumber (num_of_Z 999));
                  ("title"%string, JString "Casablanca");
                  ("year"%string, JNumber (num_of_Z 1942));
                  ("genre"%string, JString "Drama");
                  ("director"%string, JString "Michael Curtiz") ])
     = Some [ ("title"%string, JString "Casablanca");
              ("year"%string, JNumber (num_of_Z 1942));
              ("genre"%string, JString "Drama") ].
Proof.
  split; [| split; [| repeat split; reflexivity]].
  - intros v o k Hp Ht Hy Hg.
    apply safeParse_insertMovieSchema_iff in Hp.
    destruct Hp as (props & t & y & g & _ & _ & _ & _ & _ & ->).
    cbn [get_prop].
    apply String.eqb_neq in Ht, Hy, Hg.
    rewrite String.eqb_sym in Ht. rewrite String.eqb_sym in Hy.
    rewrite String.eqb_sym in Hg.
    rewrite Ht, Hy, Hg. reflexivity.
  - intros props props' Ht Hy Hg.
    rewrite !safeParse_insertMovieSchema_object, Ht, Hy, Hg. reflexivity.
Qed.

(** ** The create handler *)

(** C6.  [POST /api/movies] checks the schema first and the year range
    second: a body the schema refuses is answered 400 "Invalid fields"
    whatever its year; a body the schema accepts whose year is out of range
    is answered 400 "Invalid year"; a body passing both is answered 201 with
    the record created from it, which is appended to the movies. *)
Theorem post_api_movies_check_order (currentYear now : Z) (req_body : JSValue)
  (db : Db) :
  (safeParse insertMovieSchema req_body = None ->
   post_api_movies currentYear now req_body db
   = (error_response 400 "Invalid fields", db))
  /\ (forall o,
         safeParse insertMovieSchema req_body = Some o ->
         isValidYear currentYear (get_prop "year" o) = false ->
         post_api_movies currentYear now req_body db
         = (error_response 400 "Invalid year", db))
  /\ (forall o,
         safeParse insertMovieSchema req_body = Some o ->
         isValidYear currentYear (get_prop "year" o) = true ->
         exists movie,
           post_api_movies currentYear now req_body db
           = (mkResponse 201 (MovieJson movie),
              mkDb (movies_rows db ++ [movie]) (ratings_rows db)
                   (movies_id_seq db + 1) (ratings_id_seq db))
           /\ id movie = movies_id_seq db
           /\ createdAt movie = now
           /\ get_prop "title" o = JString (title movie)
           /\ get_prop "genre" o = JString (genre movie)
           /\ is_integer_value (Number (get_prop "year" o)) (year movie))
  /\ post_api_movies currentYear now
       (JObject [ ("title"%string, JNull);
                  ("year"%string, JNumber (num_of_Z 1887));
                  ("genre"%string, JString "Drama") ]) db
     = (error_response 400 "Invalid fields", db).
Proof.
  split; [| split; [| split]].
  - intros Hnone. unfold post_api_movies.
    destruct (insertMovieSchema_parse_cases req_body)
      as [[_ ->] | (t & y & g & Hsome & _)]; [reflexivity | congruence].
  - intros o Hsome Hyear. unfold post_api_movies.
    destruct (insertMovieSchema_parse_cases req_body)
      as [[Hnone _] | (t & y & g & Hsome' & ->)]; [congruence |].
    rewrite Hsome in Hsome'. injection Hsome' as ->.
    cbn [get_prop String.eqb Ascii.eqb Bool.eqb] in Hyear.
    cbn [new_year].
    rewrite (range_check_negation (Number (JNumber y)) 1888 currentYear).
    unfold isValidYear in Hyear. rewrite Hyear. reflexivity.
  - intros o Hsome Hyear. unfold post_api_movies.
    destruct (insertMovieSchema_parse_cases req_body)
      as [[Hnone _] | (t & y & g & Hsome' & ->)]; [congruence |].
    rewrite Hsome in Hsome'. injection Hsome' as ->.
    cbn [get_prop String.eqb Ascii.eqb Bool.eqb] in Hyear |- *.
    cbn [new_year new_title new_genre].
    rewrite (range_check_negation (Number (JNumber y)) 1888 currentYear).
    pose proof Hyear as Hk. unfold isValidYear in Hyear. rewrite Hyear.
    apply (proj1 (range_check_iff _ _ _)) in Hyear.
    destruct Hyear as [k [Hint _]].
    cbn [negb]. unfold addMovie, insert_movie.
    cbn [new_year new_title new_genre Number] in *.
    eexists. split; [reflexivity |].
    cbn [id createdAt title genre year].
    repeat split; try reflexivity.
    destruct y as [| sgn | q]; cbn [is_integer_value num_to_Z] in *;
      [contradiction | contradiction |].
    rewrite Hint. rewrite Qfloor_Z. reflexivity.
  - reflexivity.
Qed.

Lemma post_api_movies_check_order_witness :
  post_api_movies 2026 0 (JObject []) empty_db
  = (error_response 400 "Invalid fields", empty_db)
  /\ post_api_movies 2026 0 (movie_body "Future Film" 2027 "Sci-Fi") empty_db
     = (error_response 400 "Invalid year", empty_db).
Proof.
  split.
  - apply (proj1 (post_api_movies_check_order 2026 0 (JObject []) empty_db)).
    reflexivity.
  - apply (proj1 (proj2 (post_api_movies_check_order 2026 0
                           (movie_body "Future Film" 2027 "Sci-Fi") empty_db))
             [ ("title"%string, JString "Future Film");
               ("year"%string, JNumber (num_of_Z 2027));
               ("genre"%string, JString "Sci-Fi") ]);
      reflexivity.
Defined.

(** ** Lookup by id *)

Lemma js_num_eq_integer (z : Z) (i : JSNumber) :
  js_num_eq (num_of_Z z) i = true <-> is_integer_value i z.
Proof.
  destruct i as [| sgn | q]; simpl; try (split; [discriminate | contradiction]).
  rewrite Qeq_bool_iff. split; intros H; now symmetry.
Qed.

Lemma is_integer_value_to_Z (n : JSNumber) (k : Z) :
  is_integer_value n k -> num_to_Z n = k.
Proof.
  destruct n as [| sgn | q]; simpl; try contradiction.
  intros ->. apply Qfloor_Z.
Qed.

Lemma hd_error_filter_Some {A : Type} (f : A -> bool) (l : list A) (x : A) :
  hd_error (filter f l) = Some x -> In x l /\ f x = true.
Proof.
  intros H. apply filter_In.
  destruct (filter f l) as [| y l']; [discriminate |].
  injection H as ->. now left.
Qed.

Lemma filter_none {A : Type} (f : A -> bool) (l : list A) :
  (forall x, In x l -> f x = false) -> filter f l = [].
Proof.
  induction l as [| a l IH]; intros H; [reflexivity |].
  simpl. rewrite (H a (or_introl eq_refl)). apply IH.
  intros x Hx. apply H. now right.
Qed.

Lemma getMovieById_Some (i : JSNumber) (db : Db) (m : Movie) :
  getMovieById i db = Some m ->
  In m (movies_rows db) /\ is_integer_value i (id m).
Proof.
  unfold getMovieById. intros H. apply hd_error_filter_Some in H.
  destruct H as [Hin Heq]. split; [exact Hin |].
  now apply js_num_eq_integer.
Qed.


(** ** The rating handler *)

(** A request without a readable body fails before any check and inserts
    nothing. *)
Lemma post_api_movies_id_rate_unreadable_body (now : Z) (params_id : string)
  (req_body : JSValue) (db : Db) (e : Exn) :
  get_member req_body "score" = Throw e ->
  post_api_movies_id_rate now params_id req_body db
  = (error_response 500 "Failed to add rating", db).
Proof. intros H. unfold post_api_movies_id_rate. rewrite H. reflexivity. Qed.

(** A rating request whose body is [undefined] or [null] is answered 500
    before the id is checked, and inserts nothing. *)
Theorem post_api_movies_id_rate_without_body :
  forall (now : Z) (params_id : string) (db : Db),
    post_api_movies_id_rate now params_id JUndefined db
    = (error_response 500 "Failed to add rating", db)
    /\ post_api_movies_id_rate now params_id JNull db
       = (error_response 500 "Failed to add rating", db).
Proof. intros now params_id db. split; reflexivity. Qed.

(** The handler as a decision list over the four checks. *)
Lemma post_api_movies_id_rate_cases (now : Z) (params_id : string)
  (req_body score_value : JSValue) (db : Db) :
  get_member req_body "score" = Return score_value ->
  post_api_movies_id_rate now params_id req_body db
  = let i := Number (JString params_id) in
    if isNaN i then (error_response 400 "Invalid ID", db)
    else if negb (isValidRating score_value)
    then (error_response 400 "Invalid rating", db)
    else match getMovieById i db with
         | None => (error_response 404 "Not found", db)
         | Some movie =>
             (mkResponse 200
                (RatingStatsJson
                   (fst (addRating now (num_to_Z i)
                           (num_to_Z (Number score_value)) db))),
              snd (addRating now (num_to_Z i)
                     (num_to_Z (Number score_value)) db))
         end.
Proof.
  intros H. unfold post_api_movies_id_rate. rewrite H.
  cbv zeta. rewrite (rating_check_negation score_value).
  reflexivity.
Qed.



(** ** The detail handler and ids that are not integers *)




(** ** Averages *)

Lemma fold_left_add_acc (l : list Z) (a : Z) :
  fold_left (fun x y => x + y) l a = a + fold_right Z.add 0 l.
Proof.
  revert a. induction l as [| x l IH]; intros a; simpl.
  - lia.
  - rewrite IH. lia.
Qed.

(** [reduce((a, b) => a + b, 0)] is the sum. *)
Lemma sum_scores_fold_right (l : list Z) :
  sum_scores l = fold_right Z.add 0 l.
Proof. unfold sum_scores. rewrite fold_left_add_acc. lia. Qed.

Lemma sum_scores_nonneg (l : list Z) :
  Forall (fun s => 0 <= s) l -> 0 <= sum_scores l.
Proof.
  rewrite sum_scores_fold_right.
  induction 1 as [| x l Hx _ IH]; simpl; lia.
Qed.

Lemma length_Z_cons {A : Type} (x : A) (l : list A) : 0 < length_Z (x :: l).
Proof. unfold length_Z. simpl. lia. Qed.

Lemma mean_eq (l : list Z) :
  mean l = (inject_Z (sum_scores l) / inject_Z (length_Z l))%Q.
Proof. unfold mean, length_Z. now rewrite sum_scores_fold_right. Qed.

Lemma avgRating_of_cons (s : Z) (l : list Z) :
  avgRating_of (s :: l)
  = (inject_Z (Math_round (mean (s :: l) * inject_Z 10)) / inject_Z 10)%Q.
Proof.
  unfold avgRating_of. rewrite mean_eq.
  pose proof (length_Z_cons s l) as Hlen.
  destruct (Z.gtb_spec (length_Z (s :: l)) 0); [reflexivity | lia].
Qed.

(** [Math.round] is rounding half up. *)
Lemma Math_round_half_up (x : Q) : round_half_up x (Math_round x).
Proof.
  unfold round_half_up, Math_round.
  pose proof (Qfloor_le (x + (1 # 2))) as Hlo.
  pose proof (Qlt_floor (x + (1 # 2))) as Hhi.
  rewrite inject_Z_plus in Hhi.
  set (k := inject_Z (Qfloor (x + (1 # 2)))) in *.
  change (inject_Z 1) with 1%Q in Hhi.
  split; lra.
Qed.

Lemma tenths (k : Z) : (inject_Z k / inject_Z 10 == inject_Z k * (1 # 10))%Q.
Proof. reflexivity. Qed.

(** The store's rounding lands on a nearest value with one decimal. *)
Lemma sql_round1_nearest (x : Q) : rounded_to_one_decimal x (sql_round1 x).
Proof.
  unfold rounded_to_one_decimal, sql_round1.
  destruct (Qltb x 0) eqn:Hsign.
  - exists (- Qfloor (- x * inject_Z 10 + (1 # 2))).
    pose proof (Qfloor_le (- x * inject_Z 10 + (1 # 2))) as Hlo.
    pose proof (Qlt_floor (- x * inject_Z 10 + (1 # 2))) as Hhi.
    rewrite inject_Z_plus in Hhi. rewrite inject_Z_opp.
    set (k := inject_Z (Qfloor (- x * inject_Z 10 + (1 # 2)))) in *.
    change (inject_Z 1) with 1%Q in Hhi.
    change (inject_Z 10) with 10%Q in *.
    split.
    + unfold Qdiv. lra.
    + apply Qabs_Qle_condition. unfold Qdiv.
      change (/ 10)%Q with (1 # 10)%Q. split; lra.
  - exists (Qfloor (x * inject_Z 10 + (1 # 2))).
    pose proof (Qfloor_le (x * inject_Z 10 + (1 # 2))) as Hlo.
    pose proof (Qlt_floor (x * inject_Z 10 + (1 # 2))) as Hhi.
    rewrite inject_Z_plus in Hhi.
    set (k := inject_Z (Qfloor (x * inject_Z 10 + (1 # 2)))) in *.
    change (inject_Z 1) with 1%Q in Hhi.
    change (inject_Z 10) with 10%Q in *.
    split.
    + reflexivity.
    + apply Qabs_Qle_condition. unfold Qdiv.
      change (/ 10)%Q with (1 # 10)%Q. split; lra.
Qed.

Lemma Qdiv_nonneg (a b : Z) : 0 <= a -> 0 < b ->
  Qltb (inject_Z a / inject_Z b) 0 = false.
Proof.
  intros Ha Hb. apply Qltb_ge. apply Qle_shift_div_l.
  - change 0%Q with (inject_Z 0). rewrite <- Zlt_Qlt. exact Hb.
  - rewrite Qmult_0_l. change 0%Q with (inject_Z 0). rewrite <- Zle_Qle.
    exact Ha.
Qed.

(** On scores whose sum is not negative the store's aggregate is the
    handler's expression. *)
Lemma round_avg_cons (s : Z) (l : list Z) :
  0 <= sum_scores (s :: l) ->
  round_avg (s :: l) = Some (avgRating_of (s :: l)).
Proof.
  intros Hsum. unfold round_avg, sql_avg, option_map, sql_round1.
  rewrite (Qdiv_nonneg _ _ Hsum (length_Z_cons s l)).
  rewrite avgRating_of_cons, mean_eq. reflexivity.
Qed.

Lemma round_avg_nearest (s : Z) (l : list Z) :
  rounded_to_one_decimal (mean (s :: l)) (Number_of_column (round_avg (s :: l))).
Proof.
  unfold round_avg, sql_avg, option_map, Number_of_column.
  rewrite mean_eq. apply sql_round1_nearest.
Qed.

(** C1.  The average shown by the detail handler is 0 for no score and
    otherwise [round((sum / count) * 10) / 10] with ties rounded up; so
    [[5,4,4]] gives 4.3, [[4,2]] gives 3 and [[1,2,3]] gives 2.  The test
    helper [averageRating] computes the same value, and so does the store's
    aggregate [COALESCE(ROUND(AVG(score), 1), 0)] on scores that are not
    negative. *)
Theorem average_rating_policy :
  avgRating_of [] = 0%Q
  /\ (forall (s : Z) (scores : list Z),
         exists k : Z,
           round_half_up (mean (s :: scores) * inject_Z 10) k
           /\ avgRating_of (s :: scores) = (inject_Z k / inject_Z 10)%Q)
  /\ (avgRating_of [5; 4; 4]%Z == 43 # 10)%Q
  /\ (avgRating_of [4; 2]%Z == 3)%Q
  /\ (avgRating_of [1; 2; 3]%Z == 2)%Q
  /\ (forall scores : list Z, averageRating (Some scores) = avgRating_of scores)
  /\ averageRating None = 0%Q
  /\ (forall scores : list Z,
         Forall (fun s => 0 <= s) scores ->
         Number_of_column (coalesce0 (round_avg scores)) = avgRating_of scores).
Proof.
  split; [reflexivity |].
  split.
  { intros s scores. exists (Math_round (mean (s :: scores) * inject_Z 10)).
    split; [apply Math_round_half_up | apply avgRating_of_cons]. }
  split; [reflexivity |]. split; [reflexivity |]. split; [reflexivity |].
  split.
  { intros [| s scores]; [reflexivity |].
    unfold averageRating, avgRating_of.
    pose proof (length_Z_cons s scores) as Hlen.
    destruct (Z.eqb_spec (length_Z (s :: scores)) 0); [lia |].
    destruct (Z.gtb_spec (length_Z (s :: scores)) 0); [reflexivity | lia]. }
  split; [reflexivity |].
  intros [| s scores] Hpos; [reflexivity |].
  rewrite round_avg_cons by (apply sum_scores_nonneg; exact Hpos).
  reflexivity.
Qed.

Lemma average_rating_policy_witness :
  Number_of_column (coalesce0 (round_avg [5; 4; 4])) = avgRating_of [5; 4; 4].
Proof.
  apply (proj2 (proj2 (proj2 (proj2 (proj2 (proj2 (proj2
           average_rating_policy))))))).
  repeat constructor; lia.
Defined.

(** ** Adding a rating *)

Lemma scores_where_movieId_insert (now mid sc : Z) (db : Db) :
  scores_where_movieId mid (insert_rating now mid sc db)
  = scores_where_movieId mid db ++ [mkRating (ratings_id_seq db) mid sc now].
Proof.
  unfold scores_where_movieId, insert_rating. cbn [ratings_rows].
  rewrite filter_app. cbn [filter movieId]. now rewrite Z.eqb_refl.
Qed.

Lemma length_Z_snoc {A : Type} (l : list A) (x : A) :
  length_Z (l ++ [x]) = length_Z l + 1.
Proof. unfold length_Z. rewrite length_app. simpl. lia. Qed.

Lemma length_Z_map {A B : Type} (f : A -> B) (l : list A) :
  length_Z (map f l) = length_Z l.
Proof. unfold length_Z. now rewrite length_map. Qed.

Lemma snoc_is_cons {A : Type} (l : list A) (x : A) :
  exists y l', l ++ [x] = y :: l'.
Proof. destruct l as [| y l]; simpl; eauto. Qed.



(** ** Seeding *)

Lemma seedMovies_noop (now1 now2 : Z) (db : Db) :
  movies_rows db <> [] -> seedMovies now1 now2 db = (Return tt, db).
Proof.
  intros H. unfold seedMovies.
  destruct (movies_rows db) as [| m ms]; [contradiction | reflexivity].
Qed.

(** Equality of explicit lists of integers, or of pairs of them, up to
    arithmetic. *)
Ltac list_eq :=
  repeat match goal with
         | |- _ :: _ = _ :: _ => apply f_equal2
         | |- (_, _) = (_, _) => apply f_equal2
         | |- [] = [] => reflexivity
         | |- @eq Z _ _ => lia
         end.

(** On an empty movies table the seed succeeds and leaves ten movies and,
    after the ratings already there, the planned rating rows. *)
Lemma seedMovies_fresh (now1 now2 : Z) (rs : list Rating) (s1 s2 : Z) :
  exists m ms new_rows s1' s2',
    seedMovies now1 now2 (mkDb [] rs s1 s2)
    = (Return tt, mkDb (m :: ms) (rs ++ new_rows) s1' s2')
    /\ map (fun m => (title m, year m, genre m)) (m :: ms)
       = [ ("The Godfather"%string, 1972, "Crime"%string);
           ("Pulp Fiction"%string, 1994, "Crime"%string);
           ("The Shawshank Redemption"%string, 1994, "Drama"%string);
           ("Schindler's List"%string, 1993, "Drama"%string);
           ("2001: A Space Odyssey"%string, 1968, "Sci-Fi"%string);
           ("Blade Runner"%string, 1982, "Sci-Fi"%string);
           ("Chinatown"%string, 1974, "Thriller"%string);
           ("Mulholland Drive"%string, 2001, "Thriller"%string);
           ("Singin' in the Rain"%string, 1952, "Musical"%string);
           ("Sunset Boulevard"%string, 1950, "Drama"%string) ]
    /\ map (fun m => id m - s1) (m :: ms) = [0; 1; 2; 3; 4; 5; 6; 7; 8; 9]
    /\ map (fun r => (movieId r - s1, score r)) new_rows = sampleRatings_plan
    /\ map (fun r => rating_id r - s2) new_rows
       = [0; 1; 2; 3; 4; 5; 6; 7; 8; 9; 10; 11; 12; 13; 14; 15; 16; 17; 18;
          19; 20; 21; 22]
    /\ s1' = s1 + 10 /\ s2' = s2 + 23.
Proof.
  unfold seedMovies. cbn. cbv -[Z.add Z.sub app].
  rewrite <- !app_assoc. cbn [app].
  do 5 eexists. split; [reflexivity |].
  split; [reflexivity |].
  cbn [map id movieId score rating_id].
  unfold sampleRatings_plan.
  repeat split; list_eq.
Qed.

(** C8.  [seedMovies()] always succeeds.  When a movie exists it leaves the
    database as it is; on an empty movies table it inserts the ten catalog
    films, with ids drawn in order from the sequence, and then the planned
    sample ratings, each on the film of its index.  Seeding again changes
    nothing, so the catalog is inserted once and the row counts stay. *)
Theorem seedMovies_idempotent (now1 now2 now3 now4 : Z) (db : Db) :
  let seeded := snd (seedMovies now1 now2 db) in
  fst (seedMovies now1 now2 db) = Return tt
  /\ seedMovies now3 now4 seeded = (Return tt, seeded)
  /\ (movies_rows db <> [] -> seeded = db)
  /\ (movies_rows db = [] ->
      map (fun m => (title m, year m, genre m)) (movies_rows seeded)
      = [ ("The Godfather"%string, 1972, "Crime"%string);
          ("Pulp Fiction"%string, 1994, "Crime"%string);
          ("The Shawshank Redemption"%string, 1994, "Drama"%string);
          ("Schindler's List"%string, 1993, "Drama"%string);
          ("2001: A Space Odyssey"%string, 1968, "Sci-Fi"%string);
          ("Blade Runner"%string, 1982, "Sci-Fi"%string);
          ("Chinatown"%string, 1974, "Thriller"%string);
          ("Mulholland Drive"%string, 2001, "Thriller"%string);
          ("Singin' in the Rain"%string, 1952, "Musical"%string);
          ("Sunset Boulevard"%string, 1950, "Drama"%string) ]
      /\ map (fun m => id m - movies_id_seq db) (movies_rows seeded)
         = [0; 1; 2; 3; 4; 5; 6; 7; 8; 9]
      /\ exists new_rows,
           ratings_rows seeded = ratings_rows db ++ new_rows
           /\ map (fun r => (movieId r - movies_id_seq db, score r)) new_rows
              = sampleRatings_plan
           /\ List.length new_rows = 23%nat)
  /\ List.length (movies_rows (snd (seedMovies now3 now4 seeded)))
     = List.length (movies_rows seeded)
  /\ List.length (ratings_rows (snd (seedMovies now3 now4 seeded)))
     = List.length (ratings_rows seeded).
Proof.
  cbv zeta.
  assert (Hagain : seedMovies now3 now4 (snd (seedMovies now1 now2 db))
                   = (Return tt, snd (seedMovies now1 now2 db))
                   /\ fst (seedMovies now1 now2 db) = Return tt).
  { destruct db as [ms rs s1 s2]. destruct ms as [| m0 ms0].
    - destruct (seedMovies_fresh now1 now2 rs s1 s2)
        as (m & ms & new_rows & s1' & s2' & -> & _).
      cbn [fst snd]. split; [| reflexivity].
      apply seedMovies_noop. discriminate.
    - rewrite (seedMovies_noop now1 now2) by discriminate.
      cbn [fst snd]. split; [| reflexivity].
      apply seedMovies_noop. discriminate. }
  destruct Hagain as [Hagain Hok].
  split; [exact Hok |]. split; [exact Hagain |].
  split; [| split].
  - intros Hsome. now rewrite seedMovies_noop.
  - intros Hempty. destruct db as [ms rs s1 s2]. cbn [movies_rows] in Hempty.
    subst ms.
    destruct (seedMovies_fresh now1 now2 rs s1 s2)
      as (m & ms & new_rows & s1' & s2' & -> & Hcat & Hids & Hplan & Hrids & _).
    cbn [snd movies_rows ratings_rows movies_id_seq].
    split; [exact Hcat |]. split; [exact Hids |].
    exists new_rows. split; [reflexivity |]. split; [exact Hplan |].
    apply (f_equal (@List.length _)) in Hrids. rewrite length_map in Hrids.
    exact Hrids.
  - rewrite Hagain. split; reflexivity.
Qed.

Lemma seedMovies_idempotent_witness :
  movies_rows empty_db = []
  /\ map (fun m => id m - movies_id_seq empty_db)
       (movies_rows (snd (seedMovies 0 0 empty_db)))
     = [0; 1; 2; 3; 4; 5; 6; 7; 8; 9].
Proof.
  split; [reflexivity |].
  exact (proj1 (proj2 (proj1 (proj2 (proj2 (proj2
           (seedMovies_idempotent 0 0 1 1 empty_db)))) eq_refl))).
Defined.

(** ** The list of movies *)

Lemma leftJoin_flat_map (ms : list Movie) (rs : list Rating) :
  leftJoin ms rs = flat_map (fun m => map (pair m) (group_rows m rs)) ms.
Proof.
  unfold leftJoin. apply flat_map_ext. intros m. unfold group_rows.
  destruct (filter (fun r => movieId r =? id m) rs) as [| r l]; [reflexivity |].
  now rewrite map_map.
Qed.

Lemma group_rows_not_nil (m : Movie) (rs : list Rating) : group_rows m rs <> [].
Proof.
  unfold group_rows.
  destruct (filter (fun r => movieId r =? id m) rs); discriminate.
Qed.

Lemma non_null_group_rows {A : Type} (col : Rating -> A) (m : Movie)
  (rs : list Rating) :
  non_null col (group_rows m rs)
  = map col (filter (fun r => movieId r =? id m) rs).
Proof.
  unfold group_rows.
  destruct (filter (fun r => movieId r =? id m) rs) as [| r l]; [reflexivity |].
  generalize (r :: l). intros l'. induction l' as [| x l' IH]; [reflexivity |].
  simpl. now rewrite IH.
Qed.

(** A row of a movie that has no group yet opens one at the end. *)
Lemma add_to_group_new (m : Movie) (o : option Rating)
  (gs : list (Movie * list (option Rating))) :
  Forall (fun g => id (fst g) <> id m) gs ->
  add_to_group (m, o) gs = gs ++ [(m, [o])].
Proof.
  induction 1 as [| [m' os] gs Hne _ IH]; [reflexivity |].
  simpl in *. destruct (Z.eqb_spec (id m') (id m)); [contradiction |].
  now rewrite IH.
Qed.

(** A row of the movie of the last group joins it. *)
Lemma add_to_group_last (m : Movie) (o : option Rating)
  (gs : list (Movie * list (option Rating))) (os : list (option Rating)) :
  Forall (fun g => id (fst g) <> id m) gs ->
  add_to_group (m, o) (gs ++ [(m, os)]) = gs ++ [(m, os ++ [o])].
Proof.
  induction 1 as [| [m' os'] gs Hne _ IH].
  - simpl. now rewrite Z.eqb_refl.
  - simpl in *. destruct (Z.eqb_spec (id m') (id m)); [contradiction |].
    now rewrite IH.
Qed.

Lemma fold_add_to_group_last (m : Movie) (os acc : list (option Rating))
  (gs : list (Movie * list (option Rating))) :
  Forall (fun g => id (fst g) <> id m) gs ->
  fold_left (fun gs row => add_to_group row gs) (map (pair m) os)
    (gs ++ [(m, acc)])
  = gs ++ [(m, acc ++ os)].
Proof.
  intros Hgs. revert acc. induction os as [| o os IH]; intros acc.
  - now rewrite app_nil_r.
  - simpl. rewrite add_to_group_last by exact Hgs. rewrite IH.
    now rewrite <- app_assoc.
Qed.

(** Under a primary key the groups are the movies, each with its rows. *)
Lemma fold_add_to_group_movies (rs : list Rating) (ms : list Movie) :
  forall gs : list (Movie * list (option Rating)),
    NoDup (map id ms) ->
    Forall (fun m => Forall (fun g => id (fst g) <> id m) gs) ms ->
    fold_left (fun gs row => add_to_group row gs)
      (flat_map (fun m => map (pair m) (group_rows m rs)) ms) gs
    = gs ++ map (fun m => (m, group_rows m rs)) ms.
Proof.
  induction ms as [| m ms IH]; intros gs Hkey Hnew.
  - simpl. now rewrite app_nil_r.
  - simpl in Hkey. inversion Hkey as [| ? ? Hnotin Hkey']; subst.
    inversion Hnew as [| ? ? Hm Hms]; subst.
    cbn [flat_map map]. rewrite fold_left_app.
    pose proof (group_rows_not_nil m rs) as Hne.
    destruct (group_rows m rs) as [| o os]; [contradiction |].
    cbn [map fold_left]. rewrite add_to_group_new by exact Hm.
    rewrite fold_add_to_group_last by exact Hm. cbn [app].
    rewrite IH.
    + now rewrite <- app_assoc.
    + exact Hkey'.
    + apply Forall_forall. intros m' Hin. apply Forall_app. split.
      * rewrite Forall_forall in Hms. now apply Hms.
      * constructor; [| constructor]. cbn [fst]. intros Heq.
        apply Hnotin. rewrite Heq. now apply in_map.
Qed.

Lemma groupBy_leftJoin (ms : list Movie) (rs : list Rating) :
  NoDup (map id ms) ->
  groupBy (leftJoin ms rs) = map (fun m => (m, group_rows m rs)) ms.
Proof.
  intros Hkey. unfold groupBy. rewrite leftJoin_flat_map.
  rewrite (fold_add_to_group_movies rs ms [] Hkey); [reflexivity |].
  apply Forall_forall. intros m _. constructor.
Qed.

Lemma select_stats_group (db : Db) (m : Movie) :
  select_stats (m, group_rows m (ratings_rows db)) = with_stats db m.
Proof.
  unfold select_stats, with_stats, ratings_of. cbn [fst snd].
  rewrite !non_null_group_rows, length_Z_map. reflexivity.
Qed.

(** The select before ordering: one row per movie, in table order. *)
Lemma select_stats_rows (db : Db) :
  NoDup (map id (movies_rows db)) ->
  map select_stats (groupBy (leftJoin (movies_rows db) (ratings_rows db)))
  = map (with_stats db) (movies_rows db).
Proof.
  intros Hkey. rewrite groupBy_leftJoin by exact Hkey. rewrite map_map.
  apply map_ext. intros m. apply select_stats_group.
Qed.

Section Ordering.

Variable title_leb : string -> string -> bool.
Hypothesis title_leb_total :
  forall a b : string, title_leb a b = true \/ title_leb b a = true.

Lemma insert_by_title_perm (x : MovieWithStats) (l : list MovieWithStats) :
  Permutation (insert_by_title title_leb x l) (x :: l).
Proof.
  induction l as [| y l IH]; simpl; [reflexivity |].
  destruct (title_leb (title (stats_movie x)) (title (stats_movie y)));
    [reflexivity |].
  rewrite IH. apply perm_swap.
Qed.

Lemma orderBy_title_perm (l : list MovieWithStats) :
  Permutation (orderBy_title title_leb l) l.
Proof.
  induction l as [| x l IH]; simpl; [reflexivity |].
  rewrite insert_by_title_perm. now constructor.
Qed.

Lemma insert_by_title_HdRel (y x : MovieWithStats) (l : list MovieWithStats) :
  title_ordered title_leb y x ->
  HdRel (title_ordered title_leb) y l ->
  HdRel (title_ordered title_leb) y (insert_by_title title_leb x l).
Proof.
  intros Hyx Hyl. destruct l as [| z l]; simpl; [now constructor |].
  destruct (title_leb (title (stats_movie x)) (title (stats_movie z)));
    constructor; [exact Hyx | now inversion Hyl].
Qed.

Lemma insert_by_title_sorted (x : MovieWithStats) (l : list MovieWithStats) :
  Sorted (title_ordered title_leb) l ->
  Sorted (title_ordered title_leb) (insert_by_title title_leb x l).
Proof.
  induction 1 as [| y l Hsorted IH Hhd]; simpl; [repeat constructor |].
  destruct (title_leb (title (stats_movie x)) (title (stats_movie y))) eqn:Hxy.
  - constructor; [now constructor | now constructor].
  - constructor; [exact IH |].
    apply insert_by_title_HdRel; [| exact Hhd].
    unfold title_ordered.
    destruct (title_leb_total (title (stats_movie x)) (title (stats_movie y)));
      [congruence | assumption].
Qed.

Lemma orderBy_title_sorted (l : list MovieWithStats) :
  Sorted (title_ordered title_leb) (orderBy_title title_leb l).
Proof.
  induction l as [| x l IH]; simpl; [constructor |].
  now apply insert_by_title_sorted.
Qed.

(** [getAllMovies] is the table's movies with their statistics, reordered. *)
Lemma getAllMovies_perm (db : Db) :
  NoDup (map id (movies_rows db)) ->
  Permutation (getAllMovies title_leb db)
              (map (with_stats db) (movies_rows db)).
Proof.
  intros Hkey. unfold getAllMovies. rewrite select_stats_rows by exact Hkey.
  apply orderBy_title_perm.
Qed.

(** C7.  With [movies.id] a key, [getAllMovies()] holds every movie of the
    table exactly once, in ascending order of title; each comes with the
    count of its ratings and their mean rounded to one decimal, and a movie
    without a rating is kept, with average 0 and count 0. *)
Theorem getAllMovies_spec (db : Db)
  (Hkey : NoDup (map id (movies_rows db))) :
  Permutation (map stats_movie (getAllMovies title_leb db)) (movies_rows db)
  /\ Sorted (title_ordered title_leb) (getAllMovies title_leb db)
  /\ Forall
       (fun row =>
          let own := ratings_of (stats_movie row) db in
          In (stats_movie row) (movies_rows db)
          /\ totalRatings row = length_Z own
          /\ (own = [] -> avgRating row = 0%Q /\ totalRatings row = 0)
          /\ (own <> [] ->
              rounded_to_one_decimal (mean (map score own)) (avgRating row))
          /\ (Forall (fun r => 0 <= score r) own ->
              avgRating row = avgRating_of (map score own)))
       (getAllMovies title_leb db).
Proof.
  pose proof (getAllMovies_perm db Hkey) as Hperm.
  split; [| split].
  - rewrite Hperm, map_map. cbn [with_stats stats_movie]. now rewrite map_id.
  - apply orderBy_title_sorted.
  - apply Forall_forall. intros row Hrow.
    apply (Permutation_in _ Hperm) in Hrow. apply in_map_iff in Hrow.
    destruct Hrow as (m & <- & Hm). cbv zeta.
    cbn [with_stats stats_movie avgRating totalRatings].
    split; [exact Hm |]. split; [reflexivity |].
    destruct (ratings_of m db) as [| r own] eqn:Hown.
    + split; [intros _; split; reflexivity |].
      split; [intros H; now contradiction H | intros _; reflexivity].
    + split; [discriminate |]. cbn [map].
      split; [intros _; apply round_avg_nearest |].
      intros Hpos. rewrite round_avg_cons; [reflexivity |].
      apply sum_scores_nonneg.
      change (score r :: map score own) with (map score (r :: own)).
      now apply Forall_map.
Qed.

End Ordering.

Lemma getAllMovies_spec_witness :
  NoDup (map id [mkMovie 1 "Vertigo" 1958 "Thriller" 0;
                 mkMovie 2 "Alien" 1979 "Sci-Fi" 0])
  /\ Permutation
       (map stats_movie
          (getAllMovies String.leb
             (mkDb [mkMovie 1 "Vertigo" 1958 "Thriller" 0;
                    mkMovie 2 "Alien" 1979 "Sci-Fi" 0]
                   [mkRating 1 1 5 0] 3 2)))
       [mkMovie 1 "Vertigo" 1958 "Thriller" 0;
        mkMovie 2 "Alien" 1979 "Sci-Fi" 0].
Proof.
  assert (Hkey : NoDup (map id [mkMovie 1 "Vertigo" 1958 "Thriller" 0;
                                mkMovie 2 "Alien" 1979 "Sci-Fi" 0])).
  { simpl. constructor.
    - intros [H | []]. discriminate H.
    - constructor; [intros [] | constructor]. }
  split; [exact Hkey |].
  exact (proj1 (getAllMovies_spec String.leb String.leb_total
                  (mkDb [mkMovie 1 "Vertigo" 1958 "Thriller" 0;
                         mkMovie 2 "Alien" 1979 "Sci-Fi" 0]
                        [mkRating 1 1 5 0] 3 2) Hkey)).
Defined.

(** ** The primary key is an invariant *)

Lemma db_wf_empty : db_wf empty_db.
Proof. split; constructor. Qed.

Lemma db_wf_insert_movie (now : Z) (data : InsertMovie) (db : Db) :
  db_wf db -> db_wf (snd (insert_movie now data db)).
Proof.
  intros [Hkey Hseq]. unfold db_wf, insert_movie.
  cbn [snd movies_rows movies_id_seq]. split.
  - rewrite map_app. cbn [map id]. apply NoDup_app.
    + exact Hkey.
    + repeat constructor. intros [].
    + intros x Hx [<- | []]. apply in_map_iff in Hx.
      destruct Hx as (m & Heq & Hm). rewrite Forall_forall in Hseq.
      specialize (Hseq m Hm). lia.
  - apply Forall_app. split.
    + eapply Forall_impl; [| exact Hseq]. cbn beta. intros m Hm. lia.
    + constructor; [cbn [id]; lia | constructor].
Qed.

Lemma db_wf_insert_rating (now mid sc : Z) (db : Db) :
  db_wf db -> db_wf (insert_rating now mid sc db).
Proof. intros H. exact H. Qed.

Lemma db_wf_insert_movies (now : Z) (data : list InsertMovie) (db : Db) :
  db_wf db -> db_wf (insert_movies now data db).
Proof.
  unfold insert_movies. revert db.
  induction data as [| d data IH]; intros db Hwf; [exact Hwf |].
  cbn [fold_left]. apply IH. now apply db_wf_insert_movie.
Qed.

Lemma db_wf_insert_ratings (now : Z) (values : list (Z * Z)) (db : Db) :
  db_wf db -> db_wf (insert_ratings now values db).
Proof.
  unfold insert_ratings. revert db.
  induction values as [| v values IH]; intros db Hwf; [exact Hwf |].
  cbn [fold_left]. apply IH. now apply db_wf_insert_rating.
Qed.

(** Every operation that writes keeps [movies.id] a key below the
    sequence. *)
Lemma db_wf_preserved (currentYear now now' : Z) (params_id : string)
  (req_body : JSValue) (data : InsertMovie) (mid sc : Z) (db : Db) :
  db_wf db ->
  db_wf (snd (addMovie now data db))
  /\ db_wf (snd (addRating now mid sc db))
  /\ db_wf (snd (seedMovies now now' db))
  /\ db_wf (snd (post_api_movies currentYear now req_body db))
  /\ db_wf (snd (post_api_movies_id_rate now params_id req_body db)).
Proof.
  intros Hwf. split; [| split; [| split; [| split]]].
  - now apply db_wf_insert_movie.
  - exact Hwf.
  - unfold seedMovies.
    destruct (length_Z (firstn 1 (map id (movies_rows db))) >? 0);
      [exact Hwf |].
    destruct (sampleRatings (movies_rows (insert_movies now seedData db))
                sampleRatings_plan); cbn [snd].
    + now apply db_wf_insert_ratings, db_wf_insert_movies.
    + now apply db_wf_insert_movies.
  - unfold post_api_movies.
    destruct (insertMovieSchema_parse req_body) as [parsed | []];
      try exact Hwf.
    destruct (negb (Number_isInteger (Number (JNumber (new_year parsed))))
              || js_lt (Number (JNumber (new_year parsed))) (num_of_Z 1888)
              || js_gt (Number (JNumber (new_year parsed)))
                   (num_of_Z currentYear))%bool; [exact Hwf |].
    now apply db_wf_insert_movie.
  - unfold post_api_movies_id_rate.
    destruct (get_member req_body "score") as [sv | e]; [| exact Hwf].
    destruct (isNaN (Number (JString params_id))); [exact Hwf |].
    destruct (negb (Number_isInteger (Number sv))
              || js_lt (Number sv) (num_of_Z 1)
              || js_gt (Number sv) (num_of_Z 5))%bool; [exact Hwf |].
    destruct (getMovieById (Number (JString params_id)) db); exact Hwf.
Qed.

Lemma db_wf_preserved_witness :
  db_wf empty_db /\ db_wf (snd (seedMovies 0 0 empty_db)).
Proof.
  split; [exact db_wf_empty |].
  exact (proj1 (proj2 (proj2
           (db_wf_preserved 0 0 0 "" JNull (mkInsertMovie "" NaN "") 0 0
              empty_db db_wf_empty)))).
Defined.

(** ** Bounds on averages *)

Lemma fold_right_add_bounds (lo hi : Z) (l : list Z) :
  Forall (fun x => lo <= x <= hi) l ->
  lo * Z.of_nat (List.length l) <= fold_right Z.add 0 l
  <= hi * Z.of_nat (List.length l).
Proof.
  induction 1 as [| x l Hx _ IH]; [simpl; lia |].
  cbn [fold_right List.length]. rewrite Nat2Z.inj_succ. lia.
Qed.

(** The mean of scores taken between two bounds lies between them. *)
Lemma mean_bounds (lo hi : Z) (s : Z) (l : list Z) :
  Forall (fun x => lo <= x <= hi) (s :: l) ->
  (inject_Z lo <= mean (s :: l) <= inject_Z hi)%Q.
Proof.
  intros Hall. pose proof (fold_right_add_bounds lo hi (s :: l) Hall) as Hsum.
  unfold mean.
  set (n := Z.of_nat (List.length (s :: l))) in *.
  set (t := fold_right Z.add 0 (s :: l)) in *.
  assert (Hn : 0 < n) by (unfold n; simpl; lia).
  assert (Hnq : (0 < inject_Z n)%Q)
    by (change 0%Q with (inject_Z 0); now rewrite <- Zlt_Qlt).
  split.
  - apply Qle_shift_div_l; [exact Hnq |].
    rewrite <- inject_Z_mult, <- Zle_Qle. lia.
  - apply Qle_shift_div_r; [exact Hnq |].
    rewrite <- inject_Z_mult, <- Zle_Qle. lia.
Qed.

Lemma Qfloor_half (z : Z) : Qfloor (inject_Z z + (1 # 2)) = z.
Proof.
  unfold Qfloor, Qplus, inject_Z. cbn [Qnum Qden].
  symmetry. apply (Z.div_unique _ _ z 1); lia.
Qed.

(** Rounding to a tenth keeps integer bounds. *)
Lemma Math_round_tenths_bounds (lo hi : Z) (x : Q) :
  (inject_Z lo <= x <= inject_Z hi)%Q ->
  (inject_Z lo <= inject_Z (Math_round (x * inject_Z 10)) / inject_Z 10
   <= inject_Z hi)%Q.
Proof.
  intros [Hlo Hhi]. unfold Math_round.
  assert (H1 : 10 * lo <= Qfloor (x * inject_Z 10 + (1 # 2))).
  { rewrite <- (Qfloor_half (10 * lo)). apply Qfloor_resp_le.
    rewrite inject_Z_mult. change (inject_Z 10) with 10%Q. lra. }
  assert (H2 : Qfloor (x * inject_Z 10 + (1 # 2)) <= 10 * hi).
  { rewrite <- (Qfloor_half (10 * hi)). apply Qfloor_resp_le.
    rewrite inject_Z_mult. change (inject_Z 10) with 10%Q. lra. }
  rewrite Zle_Qle, inject_Z_mult in H1, H2.
  set (k := inject_Z (Qfloor (x * inject_Z 10 + (1 # 2)))) in *.
  change (inject_Z 10) with 10%Q in *. unfold Qdiv.
  change (/ 10)%Q with (1 # 10)%Q. split; lra.
Qed.

Lemma avgRating_of_between (lo hi : Z) (s : Z) (l : list Z) :
  Forall (fun x => lo <= x <= hi) (s :: l) ->
  (inject_Z lo <= avgRating_of (s :: l) <= inject_Z hi)%Q.
Proof.
  intros Hall. rewrite avgRating_of_cons.
  apply Math_round_tenths_bounds. now apply mean_bounds.
Qed.

Lemma sum_scores_perm (l l' : list Z) :
  Permutation l l' -> sum_scores l = sum_scores l'.
Proof.
  intros H. rewrite !sum_scores_fold_right.
  induction H; simpl; lia.
Qed.

(** The average does not depend on the order of the scores. *)
Lemma avgRating_of_perm (l l' : list Z) :
  Permutation l l' -> avgRating_of l = avgRating_of l'.
Proof.
  intros H. unfold avgRating_of, length_Z.
  rewrite (sum_scores_perm l l' H), (Permutation_length H). reflexivity.
Qed.

Lemma nonneg_of_range (lo hi : Z) (l : list Z) :
  0 <= lo -> Forall (fun x => lo <= x <= hi) l -> Forall (fun x => 0 <= x) l.
Proof.
  intros Hlo H. eapply Forall_impl; [| exact H]. cbn beta. intros x Hx. lia.
Qed.

(** On scores between two bounds, the lower one not negative, the average
    computed by the detail handler and the one computed by the store's
    aggregates are the same number, it lies between the bounds, and it does
    not depend on the order of the scores; so an average over ratings from
    1 to 5 is itself between 1 and 5, and never 0. *)
Theorem average_within_score_range (lo hi : Z) (s : Z) (scores : list Z)
  (Hlo : 0 <= lo)
  (Hrange : Forall (fun x => lo <= x <= hi) (s :: scores)) :
  (inject_Z lo <= avgRating_of (s :: scores) <= inject_Z hi)%Q
  /\ Number_of_column (round_avg (s :: scores)) = avgRating_of (s :: scores)
  /\ Number_of_column (coalesce0 (round_avg (s :: scores)))
     = avgRating_of (s :: scores)
  /\ (forall reordered,
         Permutation (s :: scores) reordered ->
         avgRating_of reordered = avgRating_of (s :: scores))
  /\ (0 < lo -> ~ (avgRating_of (s :: scores) == 0)%Q).
Proof.
  pose proof (avgRating_of_between lo hi s scores Hrange) as Hb.
  assert (Hsum : 0 <= sum_scores (s :: scores))
    by (apply sum_scores_nonneg; now apply (nonneg_of_range lo hi)).
  split; [exact Hb |].
  rewrite (round_avg_cons s scores Hsum). cbn [coalesce0 Number_of_column].
  split; [reflexivity |]. split; [reflexivity |]. split.
  - intros reordered Hperm. symmetry. now apply avgRating_of_perm.
  - intros Hpos Hzero. destruct Hb as [Hb _]. rewrite Hzero in Hb.
    change 0%Q with (inject_Z 0) in Hb. rewrite <- Zle_Qle in Hb. lia.
Qed.

Lemma average_within_score_range_witness :
  0 <= 1
  /\ Forall (fun x => 1 <= x <= 5) [5; 4; 4]
  /\ (inject_Z 1 <= avgRating_of [5; 4; 4]%Z <= inject_Z 5)%Q.
Proof.
  assert (Hlo : 0 <= 1) by discriminate.
  assert (Hrange : Forall (fun x => 1 <= x <= 5) [5; 4; 4])
    by (repeat constructor; discriminate).
  split; [exact Hlo |]. split; [exact Hrange |].
  exact (proj1 (average_within_score_range 1 5 5 [4; 4] Hlo Hrange)).
Defined.

(** ** Reading ratings and movies back *)

Lemma js_num_eq_of_integer (z k : Z) (i : JSNumber) :
  is_integer_value i k -> js_num_eq (num_of_Z z) i = (z =? k).
Proof.
  intros Hi. destruct (js_num_eq (num_of_Z z) i) eqn:E.
  - apply js_num_eq_integer, is_integer_value_to_Z in E.
    apply is_integer_value_to_Z in Hi. symmetry. apply Z.eqb_eq. congruence.
  - symmetry. apply Z.eqb_neq. intros ->.
    apply js_num_eq_integer in Hi. congruence.
Qed.

Lemma insert_newest_first_perm (x : Rating) (l : list Rating) :
  Permutation (insert_newest_first x l) (x :: l).
Proof.
  induction l as [| y l IH]; simpl; [reflexivity |].
  destruct (rating_createdAt y <=? rating_createdAt x); [reflexivity |].
  rewrite IH. apply perm_swap.
Qed.

Lemma orderBy_createdAt_desc_perm (l : list Rating) :
  Permutation (orderBy_createdAt_desc l) l.
Proof.
  induction l as [| x l IH]; simpl; [reflexivity |].
  rewrite insert_newest_first_perm. now constructor.
Qed.



Lemma getRatingsForMovie_integer (i : JSNumber) (k : Z) (db : Db) :
  is_integer_value i k ->
  getRatingsForMovie i db
  = map score (orderBy_createdAt_desc (scores_where_movieId k db)).
Proof.
  intros Hi. unfold getRatingsForMovie, scores_where_movieId.
  do 2 f_equal. apply filter_ext. intros r. now apply js_num_eq_of_integer.
Qed.

Lemma getRatingsForMovie_perm (i : JSNumber) (k : Z) (db : Db) :
  is_integer_value i k ->
  Permutation (getRatingsForMovie i db)
              (map score (scores_where_movieId k db)).
Proof.
  intros Hi. rewrite (getRatingsForMovie_integer i k db Hi).
  apply Permutation_map, orderBy_createdAt_desc_perm.
Qed.



Lemma NoDup_map_injective {A B : Type} (f : A -> B) (l : list A) (a b : A) :
  NoDup (map f l) -> In a l -> In b l -> f a = f b -> a = b.
Proof.
  induction l as [| x l IH]; intros Hnd Ha Hb Heq; [contradiction |].
  simpl in Hnd. inversion Hnd as [| ? ? Hnotin Hnd']; subst.
  destruct Ha as [-> | Ha], Hb as [-> | Hb].
  - reflexivity.
  - exfalso. apply Hnotin. rewrite Heq. now apply in_map.
  - exfalso. apply Hnotin. rewrite <- Heq. now apply in_map.
  - now apply IH.
Qed.

(** Under a key, the lookup returns the movie with the id asked for. *)
Lemma getMovieById_iff (i : JSNumber) (db : Db) (m : Movie) :
  NoDup (map id (movies_rows db)) ->
  getMovieById i db = Some m
  <-> In m (movies_rows db) /\ is_integer_value i (id m).
Proof.
  intros Hkey. split; [apply getMovieById_Some |].
  intros [Hin Hi]. unfold getMovieById.
  destruct (filter (fun m0 => js_num_eq (num_of_Z (id m0)) i) (movies_rows db))
    as [| m' rest] eqn:Hf.
  - assert (Hm : In m (filter (fun m0 => js_num_eq (num_of_Z (id m0)) i)
                         (movies_rows db)))
      by (apply filter_In; split; [exact Hin | now apply js_num_eq_integer]).
    rewrite Hf in Hm. contradiction.
  - assert (Hm' : In m' (filter (fun m0 => js_num_eq (num_of_Z (id m0)) i)
                           (movies_rows db)))
      by (rewrite Hf; now left).
    apply filter_In in Hm'. destruct Hm' as [Hin' Hi'].
    apply js_num_eq_integer in Hi'. cbn [hd_error]. f_equal.
    apply (NoDup_map_injective id (movies_rows db)); try assumption.
    apply is_integer_value_to_Z in Hi, Hi'. congruence.
Qed.






(** ** What the handlers keep true of the database *)

Lemma db_valid_empty : db_valid empty_db.
Proof. split; [exact db_wf_empty | split; constructor]. Qed.

Lemma db_valid_insert_movie (now : Z) (data : InsertMovie) (db : Db) :
  db_valid db -> 1888 <= num_to_Z (new_year data) ->
  db_valid (snd (insert_movie now data db)).
Proof.
  intros (Hwf & Hfk & Hyears) Hyear. split; [| split].
  - now apply db_wf_insert_movie.
  - unfold insert_movie. cbn [snd movies_rows ratings_rows].
    eapply Forall_impl; [| exact Hfk]. cbn beta.
    intros r [(m & Hin & Hid) Hscore]. split; [| exact Hscore].
    exists m. split; [apply in_or_app; now left | exact Hid].
  - unfold insert_movie. cbn [snd movies_rows].
    apply Forall_app. split; [exact Hyears |].
    constructor; [exact Hyear | constructor].
Qed.

Lemma db_valid_insert_rating (now mid sc : Z) (db : Db) :
  db_valid db ->
  (exists m, In m (movies_rows db) /\ id m = mid) -> 1 <= sc <= 5 ->
  db_valid (insert_rating now mid sc db).
Proof.
  intros (Hwf & Hfk & Hyears) Hmovie Hscore. split; [| split].
  - exact Hwf.
  - unfold insert_rating. cbn [movies_rows ratings_rows].
    apply Forall_app. split; [exact Hfk |].
    constructor; [| constructor]. cbn [movieId score]. now split.
  - exact Hyears.
Qed.

Lemma db_valid_post_api_movies (currentYear now : Z) (req_body : JSValue)
  (db : Db) :
  db_valid db -> db_valid (snd (post_api_movies currentYear now req_body db)).
Proof.
  intros Hvalid. unfold post_api_movies.
  destruct (insertMovieSchema_parse req_body) as [parsed | []];
    try exact Hvalid.
  rewrite (range_check_negation (Number (JNumber (new_year parsed)))
             1888 currentYear).
  destruct (Number_isInteger (Number (JNumber (new_year parsed)))
            && js_ge (Number (JNumber (new_year parsed))) (num_of_Z 1888)
            && js_le (Number (JNumber (new_year parsed)))
                 (num_of_Z currentYear))%bool eqn:Hcheck;
    cbn [negb]; [| exact Hvalid].
  apply range_check_iff in Hcheck. destruct Hcheck as (k & Hk & Hrange).
  unfold addMovie. apply db_valid_insert_movie; [exact Hvalid |].
  cbn [new_year Number] in *. rewrite (is_integer_value_to_Z _ _ Hk). lia.
Qed.

Lemma db_valid_post_api_movies_id_rate (now : Z) (params_id : string)
  (req_body : JSValue) (db : Db) :
  db_valid db ->
  db_valid (snd (post_api_movies_id_rate now params_id req_body db)).
Proof.
  intros Hvalid.
  destruct (get_member req_body "score") as [sv | e] eqn:Hbody.
  - rewrite (post_api_movies_id_rate_cases _ _ _ _ _ Hbody). cbv zeta.
    destruct (isNaN (Number (JString params_id))); [exact Hvalid |].
    destruct (isValidRating sv) eqn:Hscore; cbn [negb]; [| exact Hvalid].
    destruct (getMovieById (Number (JString params_id)) db) as [m |] eqn:Hfound;
      [| exact Hvalid].
    apply isValidRating_iff in Hscore. destruct Hscore as (k & Hk & Hrange).
    apply getMovieById_Some in Hfound. destruct Hfound as [Hin Hid].
    rewrite (is_integer_value_to_Z _ _ Hid), (is_integer_value_to_Z _ _ Hk).
    unfold addRating. cbn [snd].
    apply db_valid_insert_rating; [exact Hvalid | now exists m | exact Hrange].
  - now rewrite (post_api_movies_id_rate_unreadable_body _ _ _ _ _ Hbody).
Qed.

Lemma in_zero_to_nine (k : Z) :
  0 <= k <= 9 -> In k [0; 1; 2; 3; 4; 5; 6; 7; 8; 9].
Proof.
  intros Hk.
  assert (H : k = 0 \/ k = 1 \/ k = 2 \/ k = 3 \/ k = 4 \/ k = 5 \/ k = 6
              \/ k = 7 \/ k = 8 \/ k = 9) by lia.
  simpl. intuition.
Qed.

Lemma sampleRatings_plan_range :
  Forall (fun p => 0 <= fst p <= 9 /\ 1 <= snd p <= 5) sampleRatings_plan.
Proof. unfold sampleRatings_plan. repeat constructor; discriminate. Qed.

Lemma db_wf_seedMovies (now1 now2 : Z) (db : Db) :
  db_wf db -> db_wf (snd (seedMovies now1 now2 db)).
Proof.
  intros Hwf. unfold seedMovies.
  destruct (length_Z (firstn 1 (map id (movies_rows db))) >? 0);
    [exact Hwf |].
  destruct (sampleRatings (movies_rows (insert_movies now1 seedData db))
              sampleRatings_plan); cbn [snd].
  - now apply db_wf_insert_ratings, db_wf_insert_movies.
  - now apply db_wf_insert_movies.
Qed.

Lemma db_valid_seedMovies (now1 now2 : Z) (db : Db) :
  db_valid db -> db_valid (snd (seedMovies now1 now2 db)).
Proof.
  intros Hvalid. pose proof Hvalid as (Hwf & Hfk & Hyears).
  pose proof (db_wf_seedMovies now1 now2 db Hwf) as Hwf'.
  destruct db as [ms rs s1 s2]. destruct ms as [| m0 ms0].
  - cbn [movies_rows ratings_rows] in Hfk.
    assert (Hrs : rs = []).
    { destruct rs as [| r rs]; [reflexivity |].
      inversion Hfk as [| ? ? [(m & [] & _) _] _]. }
    subst rs.
    destruct (seedMovies_fresh now1 now2 [] s1 s2)
      as (m & ms & new_rows & s1' & s2' & Heq & Hcat & Hids & Hplan & _).
    rewrite Heq in Hwf' |- *. cbn [snd] in *.
    split; [exact Hwf' | split]; cbn [movies_rows ratings_rows app].
    + apply Forall_forall. intros r Hr.
      assert (Hp : In (movieId r - s1, score r) sampleRatings_plan)
        by (rewrite <- Hplan;
            apply (in_map (fun r => (movieId r - s1, score r))); exact Hr).
      pose proof sampleRatings_plan_range as Hrange.
      rewrite Forall_forall in Hrange. specialize (Hrange _ Hp).
      cbn [fst snd] in Hrange. destruct Hrange as [Hidx Hscore].
      split; [| exact Hscore].
      apply in_zero_to_nine in Hidx. rewrite <- Hids in Hidx.
      apply in_map_iff in Hidx. destruct Hidx as (m' & Hid & Hin).
      exists m'. split; [exact Hin | lia].
    + assert (Hy : Forall (fun t : string * Z * string => 1888 <= snd (fst t))
                     (map (fun m => (title m, year m, genre m)) (m :: ms)))
        by (rewrite Hcat; repeat constructor; discriminate).
      rewrite Forall_map in Hy. exact Hy.
  - rewrite seedMovies_noop by discriminate. exact Hvalid.
Qed.

Lemma seedMovies_not_empty (now1 now2 : Z) (db : Db) :
  movies_rows (snd (seedMovies now1 now2 db)) <> [].
Proof.
  destruct db as [ms rs s1 s2]. destruct ms as [| m0 ms0].
  - destruct (seedMovies_fresh now1 now2 rs s1 s2)
      as (m & ms & new_rows & s1' & s2' & -> & _). discriminate.
  - rewrite seedMovies_noop by discriminate. discriminate.
Qed.

Lemma serve_keeps_movies (currentYear now : Z) (r : WriteRequest) (db : Db) :
  exists added, movies_rows (snd (serve currentYear now r db))
                = movies_rows db ++ added.
Proof.
  destruct r as [req_body | params_id req_body]; cbn [serve].
  - unfold post_api_movies.
    destruct (insertMovieSchema_parse req_body) as [parsed | []];
      try (exists []; now rewrite app_nil_r).
    destruct (negb (Number_isInteger (Number (JNumber (new_year parsed))))
              || js_lt (Number (JNumber (new_year parsed))) (num_of_Z 1888)
              || js_gt (Number (JNumber (new_year parsed)))
                   (num_of_Z currentYear))%bool;
      [exists []; now rewrite app_nil_r |].
    eexists. reflexivity.
  - exists []. rewrite app_nil_r. unfold post_api_movies_id_rate.
    destruct (get_member req_body "score") as [sv | e]; [| reflexivity].
    destruct (isNaN (Number (JString params_id))); [reflexivity |].
    destruct (negb (Number_isInteger (Number sv))
              || js_lt (Number sv) (num_of_Z 1)
              || js_gt (Number sv) (num_of_Z 5))%bool; [reflexivity |].
    destruct (getMovieById (Number (JString params_id)) db); reflexivity.
Qed.

(** In every state the server can reach from an empty database (seeding at
    each start, then serving create and rate requests) the ids of the
    movies are a key, every rating belongs to a stored movie and holds a
    score from 1 to 5, no movie has a year before 1888, and the movies
    table is not empty. *)
Theorem reachable_db_valid (db : Db) (Hreach : reachable db) :
  db_valid db /\ movies_rows db <> [].
Proof.
  induction Hreach as [now1 now2 | db now1 now2 _ [IH _]
                       | db currentYear now r _ [IH Hne]].
  - split; [apply db_valid_seedMovies, db_valid_empty
           | apply seedMovies_not_empty].
  - split; [now apply db_valid_seedMovies | apply seedMovies_not_empty].
  - split.
    + destruct r as [req_body | params_id req_body]; cbn [serve].
      * now apply db_valid_post_api_movies.
      * now apply db_valid_post_api_movies_id_rate.
    + destruct (serve_keeps_movies currentYear now r db) as [added ->].
      destruct (movies_rows db); [contradiction | discriminate].
Qed.

Lemma reachable_db_valid_witness :
  reachable (snd (registerRoutes 0 0 empty_db))
  /\ db_valid (snd (registerRoutes 0 0 empty_db)).
Proof.
  split; [exact (reachable_start 0 0) |].
  exact (proj1 (reachable_db_valid _ (reachable_start 0 0))).
Defined.

(** ** The list, the detail page and the answers of the writes agree *)

Lemma store_avg_nonneg (scores : list Z) :
  Forall (fun s => 0 <= s) scores ->
  Number_of_column (coalesce0 (round_avg scores)) = avgRating_of scores.
Proof.
  intros Hpos. destruct scores as [| s scores]; [reflexivity |].
  rewrite round_avg_cons by (now apply sum_scores_nonneg). reflexivity.
Qed.

Lemma db_valid_scores_nonneg (db : Db) (m : Movie) :
  db_valid db -> Forall (fun s => 0 <= s) (map score (ratings_of m db)).
Proof.
  intros (_ & Hfk & _). apply Forall_map. unfold ratings_of.
  apply Forall_forall. intros r Hr. apply filter_In in Hr.
  destruct Hr as [Hr _]. rewrite Forall_forall in Hfk.
  destruct (Hfk r Hr) as [_ Hscore]. lia.
Qed.

(** The detail handler on the id of a stored movie. *)
Lemma get_api_movies_id_stored (params_id : string) (db : Db) (m : Movie) :
  db_valid db -> In m (movies_rows db) ->
  is_integer_value (Number (JString params_id)) (id m) ->
  get_api_movies_id params_id db
  = mkResponse 200
      (MovieDetailJson
         (mkMovieDetail (with_stats db m)
            (getRatingsForMovie (Number (JString params_id)) db))).
Proof.
  intros Hvalid Hin Hi. pose proof Hvalid as ([Hkey _] & _).
  unfold get_api_movies_id.
  destruct (Number (JString params_id)) as [| sgn | q] eqn:Hnum;
    try contradiction.
  cbn [isNaN].
  rewrite (proj2 (getMovieById_iff (Finite q) db m Hkey) (conj Hin Hi)).
  pose proof (getRatingsForMovie_perm (Finite q) (id m) db Hi) as Hperm.
  do 3 f_equal. unfold with_stats. f_equal.
  - rewrite (avgRating_of_perm _ _ Hperm). symmetry.
    apply store_avg_nonneg. now apply db_valid_scores_nonneg.
  - unfold length_Z. rewrite (Permutation_length Hperm), length_map.
    reflexivity.
Qed.

Section Agreement.

Variable title_leb : string -> string -> bool.

(** Each row of [GET /api/movies] is what [GET /api/movies/:id] answers
    for the id of that row: the same movie, the same average and the same
    count, together with the scores of that movie, newest first. *)
Theorem detail_agrees_with_list (db : Db) (row : MovieWithStats)
  (params_id : string)
  (Hvalid : db_valid db)
  (Hrow : In row (getAllMovies title_leb db))
  (Hid : is_integer_value (Number (JString params_id)) (id (stats_movie row))) :
  exists shown,
    get_api_movies_id params_id db
    = mkResponse 200 (MovieDetailJson (mkMovieDetail row shown))
    /\ Permutation shown (map score (ratings_of (stats_movie row) db))
    /\ totalRatings row = length_Z shown
    /\ avgRating row = avgRating_of shown.
Proof.
  pose proof Hvalid as ([Hkey _] & _).
  apply (Permutation_in _ (getAllMovies_perm title_leb db Hkey)) in Hrow.
  apply in_map_iff in Hrow. destruct Hrow as (m & <- & Hin).
  cbn [with_stats stats_movie] in Hid.
  exists (getRatingsForMovie (Number (JString params_id)) db).
  pose proof (getRatingsForMovie_perm _ _ db Hid) as Hperm.
  split; [now apply get_api_movies_id_stored |].
  split; [exact Hperm |].
  cbn [with_stats totalRatings avgRating]. split.
  - unfold length_Z. rewrite (Permutation_length Hperm), length_map.
    reflexivity.
  - rewrite (avgRating_of_perm _ _ Hperm).
    apply store_avg_nonneg. now apply db_valid_scores_nonneg.
Qed.

Lemma ratings_of_insert_movie (now : Z) (data : InsertMovie) (db : Db)
  (m : Movie) :
  ratings_of m (snd (insert_movie now data db)) = ratings_of m db.
Proof. reflexivity. Qed.

(** No rating refers to the id the sequence will give next. *)
Lemma ratings_of_fresh_id (db : Db) (m : Movie) :
  db_valid db -> id m = movies_id_seq db -> ratings_of m db = [].
Proof.
  intros ([_ Hseq] & Hfk & _) Hid. unfold ratings_of. apply filter_none.
  intros r Hr. apply Z.eqb_neq. rewrite Forall_forall in Hfk, Hseq.
  destruct (Hfk r Hr) as [(m' & Hin & Heq) _].
  specialize (Hseq m' Hin). lia.
Qed.

(** What a 201 of the create handler stands for. *)
Lemma post_api_movies_created (currentYear now : Z) (req_body : JSValue)
  (db db' : Db) (movie : Movie) :
  post_api_movies currentYear now req_body db
  = (mkResponse 201 (MovieJson movie), db') ->
  exists data,
    insert_movie now data db = (movie, db')
    /\ 1888 <= num_to_Z (new_year data) <= currentYear.
Proof.
  unfold post_api_movies.
  destruct (insertMovieSchema_parse req_body) as [parsed | []];
    try discriminate.
  rewrite (range_check_negation (Number (JNumber (new_year parsed)))
             1888 currentYear).
  destruct (Number_isInteger (Number (JNumber (new_year parsed)))
            && js_ge (Number (JNumber (new_year parsed))) (num_of_Z 1888)
            && js_le (Number (JNumber (new_year parsed)))
                 (num_of_Z currentYear))%bool eqn:Hcheck;
    cbn [negb]; [| discriminate].
  apply range_check_iff in Hcheck. destruct Hcheck as (k & Hk & Hrange).
  unfold addMovie. intros H.
  exists (mkInsertMovie (new_title parsed)
            (Number (JNumber (new_year parsed))) (new_genre parsed)).
  split.
  - destruct (insert_movie now _ db) as [mv d] eqn:E in H.
    injection H as <- <-. exact E.
  - cbn [new_year]. rewrite (is_integer_value_to_Z _ _ Hk). exact Hrange.
Qed.

(** After [POST /api/movies] answers 201, the list is the list before with
    one more row: the created movie with average 0 and count 0; the detail
    page of its id shows it with no rating; its year is between 1888 and
    the current year. *)
Theorem create_then_list (currentYear now : Z) (req_body : JSValue)
  (db db' : Db) (movie : Movie)
  (Hvalid : db_valid db)
  (Hcreated : post_api_movies currentYear now req_body db
              = (mkResponse 201 (MovieJson movie), db')) :
  Permutation (getAllMovies title_leb db')
              (mkMovieWithStats movie 0%Q 0 :: getAllMovies title_leb db)
  /\ (forall params_id,
         is_integer_value (Number (JString params_id)) (id movie) ->
         get_api_movies_id params_id db'
         = mkResponse 200
             (MovieDetailJson
                (mkMovieDetail (mkMovieWithStats movie 0%Q 0) [])))
  /\ 1888 <= year movie <= currentYear
  /\ ratings_rows db' = ratings_rows db.
Proof.
  destruct (post_api_movies_created _ _ _ _ _ _ Hcreated)
    as (data & Hins & Hyear).
  assert (Hvalid' : db_valid db').
  { replace db' with (snd (insert_movie now data db)) by (now rewrite Hins).
    apply db_valid_insert_movie; [exact Hvalid | lia]. }
  assert (Hdb' : db' = snd (insert_movie now data db)) by (now rewrite Hins).
  assert (Hmovie : movie = fst (insert_movie now data db))
    by (now rewrite Hins).
  assert (Hfresh : with_stats db' movie = mkMovieWithStats movie 0%Q 0).
  { unfold with_stats. rewrite Hdb', ratings_of_insert_movie.
    rewrite (ratings_of_fresh_id db movie Hvalid) by (now rewrite Hmovie).
    reflexivity. }
  assert (Hrows : movies_rows db' = movies_rows db ++ [movie])
    by (now rewrite Hdb', Hmovie).
  pose proof Hvalid as ([Hkey _] & _). pose proof Hvalid' as ([Hkey' _] & _).
  split; [| split; [| split]].
  - rewrite (getAllMovies_perm title_leb db' Hkey').
    rewrite (getAllMovies_perm title_leb db Hkey).
    rewrite Hrows, map_app. cbn [map].
    rewrite Hfresh. rewrite <- Permutation_cons_append.
    apply perm_skip.
    erewrite map_ext; [reflexivity |].
    intros m. unfold with_stats. now rewrite Hdb', ratings_of_insert_movie.
  - intros params_id Hid.
    rewrite (get_api_movies_id_stored params_id db' movie Hvalid').
    + rewrite Hfresh.
      pose proof (getRatingsForMovie_perm _ _ db' Hid) as Hperm.
      change (scores_where_movieId (id movie) db') with (ratings_of movie db')
        in Hperm.
      rewrite Hdb', ratings_of_insert_movie in Hperm.
      rewrite (ratings_of_fresh_id db movie Hvalid) in Hperm
        by (now rewrite Hmovie).
      cbn [map] in Hperm. apply Permutation_sym, Permutation_nil in Hperm.
      rewrite Hdb'. rewrite Hperm. reflexivity.
    + rewrite Hrows. apply in_or_app. right. now left.
    + exact Hid.
  - rewrite Hmovie. unfold insert_movie. cbn [fst year]. exact Hyear.
  - now rewrite Hdb'.
Qed.

End Agreement.

Lemma detail_agrees_with_list_witness :
  db_valid (mkDb [mkMovie 1 "Vertigo" 1958 "Thriller" 0] [mkRating 1 1 4 0] 2 2)
  /\ exists shown,
       get_api_movies_id "1"
         (mkDb [mkMovie 1 "Vertigo" 1958 "Thriller" 0] [mkRating 1 1 4 0] 2 2)
       = mkResponse 200
           (MovieDetailJson
              (mkMovieDetail
                 (mkMovieWithStats (mkMovie 1 "Vertigo" 1958 "Thriller" 0)
                    (Number_of_column (coalesce0 (round_avg [4]))) 1)
                 shown))
       /\ Permutation shown
            (map score
               (ratings_of (mkMovie 1 "Vertigo" 1958 "Thriller" 0)
                  (mkDb [mkMovie 1 "Vertigo" 1958 "Thriller" 0]
                        [mkRating 1 1 4 0] 2 2)))
       /\ 1 = length_Z shown
       /\ Number_of_column (coalesce0 (round_avg [4])) = avgRating_of shown.
Proof.
  assert (Hvalid : db_valid (mkDb [mkMovie 1 "Vertigo" 1958 "Thriller" 0]
                                  [mkRating 1 1 4 0] 2 2)).
  { split; [split | split].
    - simpl. constructor; [intros [] | constructor].
    - repeat constructor.
    - constructor; [| constructor]. split; [| split; discriminate].
      eexists. split; [left; reflexivity | reflexivity].
    - constructor; [discriminate | constructor]. }
  split; [exact Hvalid |].
  refine (detail_agrees_with_list String.leb _
            (mkMovieWithStats (mkMovie 1 "Vertigo" 1958 "Thriller" 0)
               (Number_of_column (coalesce0 (round_avg [4]))) 1)
            "1" Hvalid _ _).
  - left. reflexivity.
  - reflexivity.
Defined.

Lemma create_then_list_witness :
  db_valid empty_db
  /\ post_api_movies 2026 7 (movie_body "Casablanca" 1942 "Drama") empty_db
     = (mkResponse 201 (MovieJson (mkMovie 1 "Casablanca" 1942 "Drama" 7)),
        mkDb [mkMovie 1 "Casablanca" 1942 "Drama" 7] [] 2 1)
  /\ Permutation
       (getAllMovies String.leb
          (mkDb [mkMovie 1 "Casablanca" 1942 "Drama" 7] [] 2 1))
       (mkMovieWithStats (mkMovie 1 "Casablanca" 1942 "Drama" 7) 0%Q 0
        :: getAllMovies String.leb empty_db).
Proof.
  assert (Hcreated :
            post_api_movies 2026 7 (movie_body "Casablanca" 1942 "Drama")
              empty_db
            = (mkResponse 201
                 (MovieJson (mkMovie 1 "Casablanca" 1942 "Drama" 7)),
               mkDb [mkMovie 1 "Casablanca" 1942 "Drama" 7] [] 2 1))
    by reflexivity.
  split; [exact db_valid_empty |]. split; [exact Hcreated |].
  exact (proj1 (create_then_list String.leb 2026 7
                  (movie_body "Casablanca" 1942 "Drama") empty_db _ _
                  db_valid_empty Hcreated)).
Defined.

(** What a 200 of the rating handler stands for. *)
Lemma post_api_movies_id_rate_rated (now : Z) (params_id : string)
  (req_body : JSValue) (db db' : Db) (result : RatingStats) :
  post_api_movies_id_rate now params_id req_body db
  = (mkResponse 200 (RatingStatsJson result), db') ->
  exists m sc,
    In m (movies_rows db)
    /\ is_integer_value (Number (JString params_id)) (id m)
    /\ 1 <= sc <= 5
    /\ addRating now (id m) sc db = (result, db').
Proof.
  destruct (get_member req_body "score") as [sv | e] eqn:Hbody.
  - rewrite (post_api_movies_id_rate_cases _ _ _ _ _ Hbody). cbv zeta.
    destruct (isNaN (Number (JString params_id))); [discriminate |].
    destruct (isValidRating sv) eqn:Hscore; cbn [negb]; [| discriminate].
    destruct (getMovieById (Number (JString params_id)) db) as [m |] eqn:Hfound;
      [| discriminate].
    apply isValidRating_iff in Hscore. destruct Hscore as (k & Hk & Hrange).
    apply getMovieById_Some in Hfound. destruct Hfound as [Hin Hid].
    rewrite (is_integer_value_to_Z _ _ Hid), (is_integer_value_to_Z _ _ Hk).
    intros H. exists m, k. repeat split; try assumption; try lia.
    injection H as <- <-. reflexivity.
  - rewrite (post_api_movies_id_rate_unreadable_body _ _ _ _ _ Hbody).
    discriminate.
Qed.

Lemma coalesce0_rated (s : Z) (l : list Z) :
  coalesce0 (round_avg (s :: l)) = round_avg (s :: l).
Proof. reflexivity. Qed.

Lemma ratings_of_insert_rating_other (now mid sc : Z) (db : Db) (m : Movie) :
  id m <> mid -> ratings_of m (insert_rating now mid sc db) = ratings_of m db.
Proof.
  intros Hne. unfold ratings_of, insert_rating. cbn [ratings_rows].
  rewrite filter_app. cbn [filter movieId].
  destruct (Z.eqb_spec mid (id m)); [congruence | apply app_nil_r].
Qed.

(** After [POST /api/movies/:id/rate] answers 200 the answer is what the
    reads then show: the list holds the movie with exactly the returned
    average and count, the detail page of the same id shows them too, with
    the scores it showed before and the new one; the count is one more than
    the list showed before, and the rows of the other movies are as they
    were. *)
Theorem rate_then_read (title_leb : string -> string -> bool) (now : Z)
  (params_id : string) (req_body : JSValue) (db db' : Db)
  (result : RatingStats)
  (Hvalid : db_valid db)
  (Hrated : post_api_movies_id_rate now params_id req_body db
            = (mkResponse 200 (RatingStatsJson result), db')) :
  exists m sc,
    In m (movies_rows db)
    /\ is_integer_value (Number (JString params_id)) (id m)
    /\ 1 <= sc <= 5
    /\ movies_rows db' = movies_rows db
    /\ In (mkMovieWithStats m (result_avgRating result)
             (result_totalRatings result))
          (getAllMovies title_leb db')
    /\ (exists shown,
           get_api_movies_id params_id db'
           = mkResponse 200
               (MovieDetailJson
                  (mkMovieDetail
                     (mkMovieWithStats m (result_avgRating result)
                        (result_totalRatings result))
                     shown))
           /\ Permutation shown
                (sc :: getRatingsForMovie (Number (JString params_id)) db))
    /\ result_totalRatings result = totalRatings (with_stats db m) + 1
    /\ (forall m', In m' (movies_rows db) -> id m' <> id m ->
                   with_stats db' m' = with_stats db m').
Proof.
  destruct (post_api_movies_id_rate_rated _ _ _ _ _ _ Hrated)
    as (m & sc & Hin & Hid & Hsc & Hadd).
  exists m, sc.
  assert (Hdb' : db' = insert_rating now (id m) sc db)
    by (unfold addRating in Hadd; now injection Hadd).
  assert (Hvalid' : db_valid db')
    by (rewrite Hdb'; apply db_valid_insert_rating;
        [exact Hvalid | now exists m | exact Hsc]).
  assert (Hown : ratings_of m db'
                 = ratings_of m db ++ [mkRating (ratings_id_seq db) (id m) sc now])
    by (rewrite Hdb'; apply scores_where_movieId_insert).
  assert (Hstats : with_stats db' m
                   = mkMovieWithStats m (result_avgRating result)
                       (result_totalRatings result)).
  { unfold with_stats. rewrite Hown.
    unfold addRating in Hadd. injection Hadd as <- _.
    cbn [result_avgRating result_totalRatings].
    rewrite scores_where_movieId_insert, length_Z_map.
    change (scores_where_movieId (id m) db) with (ratings_of m db).
    destruct (snoc_is_cons (map score (ratings_of m db)) sc) as (y & l' & Heq).
    rewrite map_app. cbn [map score]. rewrite Heq, coalesce0_rated.
    reflexivity. }
  pose proof Hvalid' as ([Hkey' _] & _).
  assert (Hrows : movies_rows db' = movies_rows db) by (now rewrite Hdb').
  split; [exact Hin |]. split; [exact Hid |]. split; [exact Hsc |].
  split; [exact Hrows |]. split; [| split; [| split]].
  - rewrite <- Hstats.
    apply (Permutation_in _
             (Permutation_sym (getAllMovies_perm title_leb db' Hkey'))).
    apply in_map. now rewrite Hrows.
  - exists (getRatingsForMovie (Number (JString params_id)) db'). split.
    + rewrite <- Hstats. apply get_api_movies_id_stored;
        [exact Hvalid' | now rewrite Hrows | exact Hid].
    + rewrite (getRatingsForMovie_perm _ _ db' Hid).
      rewrite (getRatingsForMovie_perm _ _ db Hid).
      change (scores_where_movieId (id m) db') with (ratings_of m db').
      change (scores_where_movieId (id m) db) with (ratings_of m db).
      rewrite Hown, map_app. cbn [map score].
      symmetry. apply Permutation_cons_append.
  - apply (f_equal totalRatings) in Hstats.
    cbn [totalRatings with_stats] in Hstats |- *.
    rewrite <- Hstats, Hown. apply length_Z_snoc.
  - intros m' _ Hne. unfold with_stats.
    now rewrite Hdb', ratings_of_insert_rating_other.
Qed.

Lemma rate_then_read_witness :
  db_valid (mkDb [mkMovie 1 "Vertigo" 1958 "Thriller" 0] [] 2 1)
  /\ post_api_movies_id_rate 9 "1" (score_body (JNumber (num_of_Z 4)))
       (mkDb [mkMovie 1 "Vertigo" 1958 "Thriller" 0] [] 2 1)
     = (mkResponse 200
          (RatingStatsJson
             (fst (addRating 9 1 4
                     (mkDb [mkMovie 1 "Vertigo" 1958 "Thriller" 0] [] 2 1)))),
        snd (addRating 9 1 4
               (mkDb [mkMovie 1 "Vertigo" 1958 "Thriller" 0] [] 2 1)))
  /\ exists m,
       In (mkMovieWithStats m
             (result_avgRating
                (fst (addRating 9 1 4
                        (mkDb [mkMovie 1 "Vertigo" 1958 "Thriller" 0] [] 2 1))))
             (result_totalRatings
                (fst (addRating 9 1 4
                        (mkDb [mkMovie 1 "Vertigo" 1958 "Thriller" 0] [] 2 1)))))
          (getAllMovies String.leb
             (snd (addRating 9 1 4
                     (mkDb [mkMovie 1 "Vertigo" 1958 "Thriller" 0] [] 2 1)))).
Proof.
  assert (Hvalid : db_valid (mkDb [mkMovie 1 "Vertigo" 1958 "Thriller" 0]
                                  [] 2 1)).
  { split; [split | split].
    - simpl. constructor; [intros [] | constructor].
    - repeat constructor.
    - constructor.
    - constructor; [discriminate | constructor]. }
  assert (Hrated :
            post_api_movies_id_rate 9 "1" (score_body (JNumber (num_of_Z 4)))
              (mkDb [mkMovie 1 "Vertigo" 1958 "Thriller" 0] [] 2 1)
            = (mkResponse 200
                 (RatingStatsJson
                    (fst (addRating 9 1 4
                            (mkDb [mkMovie 1 "Vertigo" 1958 "Thriller" 0]
                                  [] 2 1)))),
               snd (addRating 9 1 4
                      (mkDb [mkMovie 1 "Vertigo" 1958 "Thriller" 0] [] 2 1))))
    by reflexivity.
  split; [exact Hvalid |]. split; [exact Hrated |].
  destruct (rate_then_read String.leb 9 "1" (score_body (JNumber (num_of_Z 4)))
              _ _ _ Hvalid Hrated)
    as (m & sc & _ & _ & _ & _ & Hlist & _).
  exists m. exact Hlist.
Defined.

(** ** Stars *)

Lemma concat_repeat_singleton {A : Type} (c : A) (n : nat) :
  List.concat (repeat [c] n) = repeat c n.
Proof. induction n as [| n IH]; simpl; [reflexivity | now rewrite IH]. Qed.

Lemma String_repeat_integer (c : Z) (k : Z) :
  String_repeat [c] (num_of_Z k)
  = if k <? 0 then RangeError else Normal (repeat c (Z.to_nat k)).
Proof.
  unfold String_repeat, num_of_Z, inject_Z. cbn [Qnum Qden].
  rewrite Z.quot_1_r, concat_repeat_singleton. reflexivity.
Qed.

Lemma js_sub_integers (a b : Z) :
  js_sub (num_of_Z a) (num_of_Z b) = Finite (inject_Z a - inject_Z b)%Q.
Proof. reflexivity. Qed.

Lemma String_repeat_difference (c : Z) (a b : Z) :
  String_repeat [c] (js_sub (num_of_Z a) (num_of_Z b))
  = if a - b <? 0 then RangeError else Normal (repeat c (Z.to_nat (a - b))).
Proof.
  rewrite js_sub_integers. unfold String_repeat, Qminus, Qplus, Qopp, inject_Z.
  cbn [Qnum Qden]. rewrite concat_repeat_singleton.
  replace ((a * 1 + - b * 1) ÷ Z.pos (1 * 1)) with (a - b)
    by (change (Z.pos (1 * 1)) with 1; rewrite Z.quot_1_r; lia).
  reflexivity.
Qed.

(** [formatStars] on a finite score, by the rounded score. *)
Lemma formatStars_finite (q : Q) :
  formatStars (Finite q)
  = if ((0 <=? Math_round q) && (Math_round q <=? 5))%bool
    then Normal (repeat BLACK_STAR (Z.to_nat (Math_round q))
                 ++ repeat WHITE_STAR (Z.to_nat (5 - Math_round q)))
    else RangeError.
Proof.
  unfold formatStars. cbn [js_Math_round].
  rewrite String_repeat_integer, String_repeat_difference.
  destruct (Z.ltb_spec (Math_round q) 0), (Z.leb_spec 0 (Math_round q));
    try lia; cbn [andb]; [reflexivity |].
  destruct (Z.ltb_spec (5 - Math_round q) 0), (Z.leb_spec (Math_round q) 5);
    try lia; reflexivity.
Qed.

Lemma Qfloor_ge (z : Z) (x : Q) : z <= Qfloor x <-> (inject_Z z <= x)%Q.
Proof.
  split.
  - intros H. apply Qle_trans with (inject_Z (Qfloor x)).
    + now rewrite <- Zle_Qle.
    + apply Qfloor_le.
  - intros H. rewrite <- (Qfloor_Z z). now apply Qfloor_resp_le.
Qed.

Lemma Math_round_range (q : Q) (lo hi : Z) :
  lo <= Math_round q <= hi
  <-> (inject_Z lo - (1 # 2) <= q)%Q /\ (q < inject_Z hi + (1 # 2))%Q.
Proof.
  unfold Math_round. split.
  - intros [Hlo Hhi]. apply Qfloor_ge in Hlo.
    pose proof (Qlt_floor (q + (1 # 2))) as Hlt.
    assert (Hh : (inject_Z (Qfloor (q + (1 # 2)) + 1) <= inject_Z (hi + 1))%Q)
      by (rewrite <- Zle_Qle; lia).
    rewrite inject_Z_plus in Hh |- . rewrite (inject_Z_plus hi 1) in Hh.
    rewrite inject_Z_plus in Hlt. change (inject_Z 1) with 1%Q in *.
    split; lra.
  - intros [Hlo Hhi]. split.
    + apply Qfloor_ge. lra.
    + assert (H : ~ hi + 1 <= Qfloor (q + (1 # 2))).
      { intros H. apply Qfloor_ge in H. rewrite inject_Z_plus in H.
        change (inject_Z 1) with 1%Q in H. lra. }
      lia.
Qed.

(** [formatStars(score)]: for a score from -0.5 up to, but not including,
    5.5 it is five symbols, [Math.round(score)] black stars followed by
    white ones; for any other finite score and for the infinities it throws
    [RangeError]; for [NaN] it is the empty string.  On the averages the
    server computes from scores between 1 and 5, and on the 0 of a movie
    without ratings, it returns five symbols. *)
Theorem formatStars_spec :
  formatStars NaN = Normal []
  /\ (forall s, formatStars (Infinity s) = RangeError)
  /\ (forall q : Q,
         (- (1 # 2) <= q)%Q /\ (q < 11 # 2)%Q ->
         formatStars (Finite q)
         = Normal (repeat BLACK_STAR (Z.to_nat (Math_round q))
                   ++ repeat WHITE_STAR (Z.to_nat (5 - Math_round q)))
         /\ List.length (repeat BLACK_STAR (Z.to_nat (Math_round q))
                         ++ repeat WHITE_STAR (Z.to_nat (5 - Math_round q)))
            = 5%nat)
  /\ (forall q : Q,
         (q < - (1 # 2))%Q \/ (11 # 2 <= q)%Q ->
         formatStars (Finite q) = RangeError)
  /\ (forall (s : Z) (scores : list Z),
         Forall (fun x => 1 <= x <= 5) (s :: scores) ->
         exists stars,
           formatStars (Finite (avgRating_of (s :: scores))) = Normal stars
           /\ List.length stars = 5%nat)
  /\ formatStars (Finite (avgRating_of [])) = Normal (repeat WHITE_STAR 5).
Proof.
  assert (Hin : forall q, (- (1 # 2) <= q)%Q /\ (q < 11 # 2)%Q ->
                          0 <= Math_round q <= 5).
  { intros q [H1 H2]. apply Math_round_range.
    change (inject_Z 0) with 0%Q. change (inject_Z 5) with 5%Q. split; lra. }
  assert (Hfive : forall q, 0 <= Math_round q <= 5 ->
            formatStars (Finite q)
            = Normal (repeat BLACK_STAR (Z.to_nat (Math_round q))
                      ++ repeat WHITE_STAR (Z.to_nat (5 - Math_round q)))
            /\ List.length
                 (repeat BLACK_STAR (Z.to_nat (Math_round q))
                  ++ repeat WHITE_STAR (Z.to_nat (5 - Math_round q)))
               = 5%nat).
  { intros q Hk. rewrite formatStars_finite.
    replace ((0 <=? Math_round q) && (Math_round q <=? 5))%bool with true
      by (symmetry; apply andb_true_iff; split; apply Z.leb_le; lia).
    split; [reflexivity |]. rewrite length_app, !repeat_length. lia. }
  split; [reflexivity |]. split; [reflexivity |].
  split; [intros q Hq; apply Hfive, Hin, Hq |].
  split; [| split].
  - intros q Hq. rewrite formatStars_finite.
    destruct (Z.leb_spec 0 (Math_round q)) as [H0 |]; [| reflexivity].
    destruct (Z.leb_spec (Math_round q) 5) as [H5 |]; [| reflexivity].
    exfalso. pose proof (proj1 (Math_round_range q 0 5) (conj H0 H5)) as [H1 H2].
    change (inject_Z 0) with 0%Q in H1. change (inject_Z 5) with 5%Q in H2.
    destruct Hq; lra.
  - intros s scores Hrange.
    pose proof (avgRating_of_between 1 5 s scores Hrange) as [H1 H5].
    change (inject_Z 1) with 1%Q in H1. change (inject_Z 5) with 5%Q in H5.
    eexists. apply Hfive, Hin. split; lra.
  - reflexivity.
Qed.

Lemma formatStars_spec_witness :
  ((- (1 # 2) <= 47 # 10)%Q /\ (47 # 10 < 11 # 2)%Q)
  /\ formatStars (Finite (47 # 10))
     = Normal (repeat BLACK_STAR (Z.to_nat (Math_round (47 # 10)))
               ++ repeat WHITE_STAR (Z.to_nat (5 - Math_round (47 # 10)))).
Proof.
  assert (Hq : (- (1 # 2) <= 47 # 10)%Q /\ (47 # 10 < 11 # 2)%Q)
    by (split; [discriminate | reflexivity]).
  split; [exact Hq |].
  exact (proj1 (proj1 (proj2 (proj2 formatStars_spec)) (47 # 10) Hq)).
Defined.

(** ** The rating distribution of the detail page *)









(** ** The rating schema *)

Lemma insertRatingSchema_shape :
  insertRatingSchema
  = [ ("movieId"%string, mkZodField (column_check PgInteger) false false);
      ("score"%string, mkZodField (column_check PgInteger) false false) ].
Proof. reflexivity. Qed.

Lemma safeParse_insertRatingSchema_object (props : list (string * JSValue)) :
  safeParse insertRatingSchema (JObject props)
  = match get_prop "movieId" props, get_prop "score" props with
    | JNumber mid, JNumber sc =>
        if (column_check PgInteger (JNumber mid)
            && column_check PgInteger (JNumber sc))%bool
        then Some [ ("movieId"%string, JNumber mid);
                    ("score"%string, JNumber sc) ]
        else None
    | _, _ => None
    end.
Proof.
  rewrite insertRatingSchema_shape. unfold safeParse, parse_shape.
  cbn [zf_check zf_optional zf_nullable].
  destruct (get_prop "score" props) as [| | b | sc | s | l | o];
    destruct (get_prop "movieId" props) as [| | b' | mid | s' | l' | o'];
    try reflexivity; cbn [column_check];
    repeat match goal with
           | |- context [(js_ge ?n ?a && js_le ?n ?b && Number_isInteger ?n)%bool] =>
               destruct (js_ge n a && js_le n b && Number_isInteger n)%bool
           end;
    reflexivity.
Qed.

Lemma column_check_integer_iff (n : JSNumber) :
  column_check PgInteger (JNumber n) = true
  <-> exists k, is_integer_value n k /\ INT32_MIN <= k <= INT32_MAX.
Proof.
  cbn [column_check]. rewrite <- range_check_iff.
  destruct (Number_isInteger n), (js_ge n (num_of_Z INT32_MIN)),
    (js_le n (num_of_Z INT32_MAX)); cbn [andb]; split; auto.
Qed.

(** [insertRatingSchema] accepts exactly the objects whose [movieId] and
    [score] are 32-bit integer numbers and keeps those two keys only.  It
    puts no further bound on the score: every score the rating handler
    accepts passes it, and so do scores the handler refuses, such as 99. *)
Theorem insertRatingSchema_spec :
  (forall v o,
      safeParse insertRatingSchema v = Some o
      <-> exists props mid sc k1 k2,
            v = JObject props
            /\ get_prop "movieId" props = JNumber mid
            /\ get_prop "score" props = JNumber sc
            /\ is_integer_value mid k1 /\ INT32_MIN <= k1 <= INT32_MAX
            /\ is_integer_value sc k2 /\ INT32_MIN <= k2 <= INT32_MAX
            /\ o = [ ("movieId"%string, JNumber mid);
                     ("score"%string, JNumber sc) ])
  /\ (forall sc : JSNumber,
         isValidRating (JNumber sc) = true ->
         column_check PgInteger (JNumber sc) = true)
  /\ safeParse insertRatingSchema
       (JObject [ ("movieId"%string, JNumber (num_of_Z 1));
                  ("score"%string, JNumber (num_of_Z 99)) ])
     = Some [ ("movieId"%string, JNumber (num_of_Z 1));
              ("score"%string, JNumber (num_of_Z 99)) ]
  /\ isValidRating (JNumber (num_of_Z 99)) = false.
Proof.
  split; [| split; [| split; reflexivity]].
  - intros v o. split.
    + destruct v as [| | b | n | s | l | props]; try discriminate.
      rewrite safeParse_insertRatingSchema_object.
      destruct (get_prop "movieId" props) as [| | ? | mid | ? | ? | ?] eqn:Hm;
        try discriminate.
      destruct (get_prop "score" props) as [| | ? | sc | ? | ? | ?] eqn:Hs;
        try discriminate.
      destruct (column_check PgInteger (JNumber mid)) eqn:Hcm;
        try discriminate.
      destruct (column_check PgInteger (JNumber sc)) eqn:Hcs;
        try discriminate.
      cbn [andb]. intros H. injection H as <-.
      apply column_check_integer_iff in Hcm, Hcs.
      destruct Hcm as (k1 & Hk1 & Hr1). destruct Hcs as (k2 & Hk2 & Hr2).
      destruct Hr1, Hr2.
      exists props, mid, sc, k1, k2. repeat split; assumption || reflexivity.
    + intros (props & mid & sc & k1 & k2 & -> & Hm & Hs & Hk1 & Hr1 & Hk2
              & Hr2 & ->).
      rewrite safeParse_insertRatingSchema_object, Hm, Hs.
      rewrite (proj2 (column_check_integer_iff mid)) by (now exists k1).
      rewrite (proj2 (column_check_integer_iff sc)) by (now exists k2).
      reflexivity.
  - intros sc Hvalid. apply isValidRating_iff in Hvalid.
    destruct Hvalid as (k & Hk & Hrange). apply column_check_integer_iff.
    exists k. split; [exact Hk |]. unfold INT32_MIN, INT32_MAX. lia.
Qed.

(** ** The add-movie form *)

Lemma trim_start_split (l : list ascii) :
  exists pre, l = pre ++ trim_start l /\ forallb is_StrWhiteSpaceChar pre = true.
Proof.
  induction l as [| c l (pre & Hl & Hpre)]; [now exists [] |].
  cbn [trim_start]. destruct (is_StrWhiteSpaceChar c) eqn:Hc.
  - exists (c :: pre). cbn [app forallb]. split.
    + f_equal. exact Hl.
    + now rewrite Hc, Hpre.
  - now exists [].
Qed.

Lemma trim_start_head (l : list ascii) (c : ascii) (r : list ascii) :
  trim_start l = c :: r -> is_StrWhiteSpaceChar c = false.
Proof.
  induction l as [| x l IH]; [discriminate |]. cbn [trim_start].
  destruct (is_StrWhiteSpaceChar x) eqn:Hx; [exact IH |].
  intros H. injection H as <- _. exact Hx.
Qed.

Lemma trim_start_fixed (c : ascii) (r : list ascii) :
  is_StrWhiteSpaceChar c = false -> trim_start (c :: r) = c :: r.
Proof. intros H. cbn [trim_start]. now rewrite H. Qed.

Lemma trim_start_nil_iff (l : list ascii) :
  trim_start l = [] <-> forallb is_StrWhiteSpaceChar l = true.
Proof.
  induction l as [| c l IH]; [split; reflexivity |].
  cbn [trim_start forallb]. destruct (is_StrWhiteSpaceChar c);
    [exact IH | split; discriminate].
Qed.

Lemma forallb_rev {A : Type} (f : A -> bool) (l : list A) :
  forallb f (rev l) = forallb f l.
Proof.
  induction l as [| x l IH]; [reflexivity |].
  cbn [rev forallb]. rewrite forallb_app, IH. cbn [forallb].
  rewrite andb_true_r. apply andb_comm.
Qed.

(** [trim] takes whitespace, and nothing else, off both ends. *)
Lemma trim_split (l : list ascii) :
  exists pre post,
    l = pre ++ trim l ++ post
    /\ forallb is_StrWhiteSpaceChar pre = true
    /\ forallb is_StrWhiteSpaceChar post = true.
Proof.
  destruct (trim_start_split l) as (pre & Hl & Hpre).
  destruct (trim_start_split (rev (trim_start l))) as (post' & Hr & Hpost).
  exists pre, (rev post'). unfold trim. split; [| split].
  - rewrite <- rev_app_distr, <- Hr, rev_involutive. exact Hl.
  - exact Hpre.
  - now rewrite forallb_rev.
Qed.

Lemma trim_nil_iff (l : list ascii) :
  trim l = [] <-> forallb is_StrWhiteSpaceChar l = true.
Proof.
  split.
  - intros Hnil. destruct (trim_split l) as (pre & post & Hl & Hpre & Hpost).
    rewrite Hnil in Hl. rewrite Hl. cbn [app].
    rewrite forallb_app, Hpre, Hpost. reflexivity.
  - intros Hall. unfold trim.
    rewrite (proj2 (trim_start_nil_iff l) Hall). reflexivity.
Qed.

(** A trimmed string that is not empty starts and ends with a character
    that is no whitespace. *)
Lemma trim_ends (l : list ascii) (c : ascii) (r : list ascii) :
  trim l = c :: r ->
  is_StrWhiteSpaceChar c = false
  /\ exists d r', rev (c :: r) = d :: r' /\ is_StrWhiteSpaceChar d = false.
Proof.
  unfold trim. intros H.
  assert (Hb : trim_start (rev (trim_start l)) = rev (c :: r))
    by (rewrite <- H; now rewrite rev_involutive).
  split.
  - destruct (trim_start l) as [| a0 a] eqn:Ha; [discriminate H |].
    pose proof (trim_start_head l a0 a Ha) as Ha0.
    destruct (trim_start_split (rev (a0 :: a))) as (pre & Hsplit & _).
    rewrite Hb in Hsplit.
    apply (f_equal (@rev ascii)) in Hsplit.
    rewrite rev_involutive, rev_app_distr, rev_involutive in Hsplit.
    cbn [app] in Hsplit. injection Hsplit as -> _. exact Ha0.
  - destruct (rev (c :: r)) as [| d r'] eqn:Hrev.
    + apply (f_equal (@rev ascii)) in Hrev. rewrite rev_involutive in Hrev.
      discriminate Hrev.
    + exists d, r'. split; [reflexivity |].
      exact (trim_start_head _ d r' Hb).
Qed.

Lemma trim_idempotent (l : list ascii) : trim (trim l) = trim l.
Proof.
  destruct (trim l) as [| c r] eqn:Ht; [reflexivity |].
  destruct (trim_ends l c r Ht) as (Hc & d & r' & Hrev & Hd).
  unfold trim. rewrite (trim_start_fixed c r Hc), Hrev.
  rewrite (trim_start_fixed d r' Hd), <- Hrev. apply rev_involutive.
Qed.

Lemma String_trim_empty_iff (s : string) :
  String_trim s = ""%string
  <-> forallb is_StrWhiteSpaceChar (list_ascii_of_string s) = true.
Proof.
  unfold String_trim. rewrite <- trim_nil_iff. split.
  - intros H. apply (f_equal list_ascii_of_string) in H.
    now rewrite list_ascii_of_string_of_list_ascii in H.
  - intros ->. reflexivity.
Qed.

Lemma String_trim_idempotent (s : string) :
  String_trim (String_trim s) = String_trim s.
Proof.
  unfold String_trim.
  now rewrite list_ascii_of_string_of_list_ascii, trim_idempotent.
Qed.

Lemma string_of_list_ascii_app (a b : list ascii) :
  string_of_list_ascii (a ++ b)
  = (string_of_list_ascii a ++ string_of_list_ascii b)%string.
Proof.
  induction a as [| c a IH]; [reflexivity |].
  cbn [app string_of_list_ascii String.append]. now rewrite IH.
Qed.

Lemma String_trim_split (s : string) :
  exists pre post,
    s = (pre ++ String_trim s ++ post)%string
    /\ forallb is_StrWhiteSpaceChar (list_ascii_of_string pre) = true
    /\ forallb is_StrWhiteSpaceChar (list_ascii_of_string post) = true.
Proof.
  destruct (trim_split (list_ascii_of_string s))
    as (pre & post & Hl & Hpre & Hpost).
  exists (string_of_list_ascii pre), (string_of_list_ascii post).
  rewrite !list_ascii_of_string_of_list_ascii. split; [| now split].
  unfold String_trim. rewrite <- !string_of_list_ascii_app.
  etransitivity; [symmetry; apply string_of_list_ascii_of_string |].
  apply f_equal. exact Hl.
Qed.

Lemma String_eqb_empty_iff (s : string) :
  String.eqb s "" = true <-> s = ""%string.
Proof. apply String.eqb_eq. Qed.

(** [handleSubmit]: nothing is sent when the title, the year or the genre
    is blank (made of whitespace only); otherwise the object sent holds the
    title and the genre with the whitespace taken off both ends, neither of
    them empty, and [Number(year)]; that object passes [insertMovieSchema]
    exactly when its year is a 32-bit integer. *)
Theorem handleSubmit_spec (f : MovieForm) :
  (handleSubmit f = None
   <-> forallb is_StrWhiteSpaceChar (list_ascii_of_string (form_title f)) = true
       \/ forallb is_StrWhiteSpaceChar (list_ascii_of_string (form_year f)) = true
       \/ forallb is_StrWhiteSpaceChar (list_ascii_of_string (form_genre f))
          = true)
  /\ (forall d,
         handleSubmit f = Some d ->
         new_title d = String_trim (form_title f)
         /\ new_genre d = String_trim (form_genre f)
         /\ new_year d = Number (JString (form_year f))
         /\ new_title d <> ""%string
         /\ new_genre d <> ""%string
         /\ String_trim (new_title d) = new_title d
         /\ String_trim (new_genre d) = new_genre d
         /\ (exists pre post,
                form_title f = (pre ++ new_title d ++ post)%string
                /\ forallb is_StrWhiteSpaceChar (list_ascii_of_string pre) = true
                /\ forallb is_StrWhiteSpaceChar (list_ascii_of_string post)
                   = true)
         /\ safeParse insertMovieSchema (object_of_InsertMovie d)
            = if column_check PgInteger (JNumber (new_year d))
              then Some [ ("title"%string, JString (new_title d));
                          ("year"%string, JNumber (new_year d));
                          ("genre"%string, JString (new_genre d)) ]
              else None).
Proof.
  unfold handleSubmit.
  rewrite <- !String_trim_empty_iff, <- !String_eqb_empty_iff.
  destruct (String.eqb (String_trim (form_title f)) "") eqn:Ht;
    [split; [split; auto | discriminate] |].
  destruct (String.eqb (String_trim (form_year f)) "") eqn:Hy;
    [split; [split; auto | discriminate] |].
  destruct (String.eqb (String_trim (form_genre f)) "") eqn:Hg;
    [split; [split; auto | discriminate] |].
  cbn [orb]. split.
  - split; [discriminate | intros [H | [H | H]]; discriminate].
  - intros d H. injection H as <-. cbn [new_title new_genre new_year].
    apply String.eqb_neq in Ht, Hg.
    split; [reflexivity |]. split; [reflexivity |]. split; [reflexivity |].
    split; [exact Ht |]. split; [exact Hg |].
    split; [apply String_trim_idempotent |].
    split; [apply String_trim_idempotent |].
    split; [apply String_trim_split |].
    unfold object_of_InsertMovie. cbn [new_title new_genre new_year].
    rewrite safeParse_insertMovieSchema_object. reflexivity.
Qed.

Lemma handleSubmit_spec_witness :
  handleSubmit (mkMovieForm " Casablanca " "1942" "Drama")
  = Some (mkInsertMovie "Casablanca" (Number (JString "1942")) "Drama")
  /\ new_title (mkInsertMovie "Casablanca" (Number (JString "1942")) "Drama")
     <> ""%string.
Proof.
  assert (H : handleSubmit (mkMovieForm " Casablanca " "1942" "Drama")
              = Some (mkInsertMovie "Casablanca" (Number (JString "1942"))
                        "Drama"))
    by reflexivity.
  split; [exact H |].
  exact (proj1 (proj2 (proj2 (proj2
           (proj2 (handleSubmit_spec
                     (mkMovieForm " Casablanca " "1942" "Drama")) _ H))))).
Defined.

(** ** Ids printed into links and read back *)

Lemma uint_chars_span (d : Decimal.uint) :
  span_digits decimal_digit (uint_chars d) = (uint_digits d, []).
Proof.
  unfold uint_chars.
  induction d as [| d IH | d IH | d IH | d IH | d IH | d IH | d IH | d IH
                  | d IH | d IH];
    [reflexivity | ..];
    cbn [DecimalString.NilEmpty.string_of_uint list_ascii_of_string
         span_digits uint_digits];
    rewrite IH; reflexivity.
Qed.

Lemma digit_is_not (c a : ascii) :
  decimal_digit c <> None -> decimal_digit a = None -> Ascii.eqb c a = false.
Proof.
  intros Hc Ha. destruct (Ascii.eqb_spec c a) as [-> |]; [contradiction | easy].
Qed.

Lemma digit_is_no_whitespace (c : ascii) :
  decimal_digit c <> None -> is_StrWhiteSpaceChar c = false.
Proof.
  unfold decimal_digit, is_StrWhiteSpaceChar. cbv zeta.
  destruct ((48 <=? Z.of_nat (nat_of_ascii c))
            && (Z.of_nat (nat_of_ascii c) <=? 57))%bool eqn:H;
    [| intros Hc; now contradiction Hc].
  intros _. apply andb_true_iff in H. destruct H as [H1 H2].
  apply Z.leb_le in H1, H2.
  repeat (apply orb_false_iff; split); apply Nat.eqb_neq; lia.
Qed.

Lemma uint_chars_digits (d : Decimal.uint) :
  Forall (fun c => decimal_digit c <> None) (uint_chars d).
Proof.
  unfold uint_chars.
  induction d; cbn [DecimalString.NilEmpty.string_of_uint list_ascii_of_string];
    constructor; try assumption; discriminate.
Qed.

(** Trimming leaves a string without whitespace as it is. *)
Lemma trim_no_whitespace (l : list ascii) :
  Forall (fun c => is_StrWhiteSpaceChar c = false) l -> trim l = l.
Proof.
  intros Hall. destruct l as [| c r]; [reflexivity |].
  unfold trim. rewrite trim_start_fixed by (now inversion Hall).
  destruct (rev (c :: r)) as [| d r'] eqn:Hrev.
  - apply (f_equal (@rev ascii)) in Hrev. now rewrite rev_involutive in Hrev.
  - rewrite trim_start_fixed.
    + rewrite <- Hrev. apply rev_involutive.
    + rewrite Forall_forall in Hall. apply Hall. apply in_rev.
      rewrite Hrev. now left.
Qed.

(** A numeral made of digits only reads as the value of its digits. *)
Lemma parse_unsigned_digits (l : list ascii) (d0 : Z) (ds : list Z) :
  span_digits decimal_digit l = (d0 :: ds, []) ->
  Forall (fun c => decimal_digit c <> None) l ->
  is_integer_value (parse_unsigned l) (digits_value 10 (d0 :: ds)).
Proof.
  intros Hspan Hall. unfold parse_unsigned.
  assert (Hinf : list_ascii_eqb l Infinity_literal = false).
  { destruct l as [| c r]; [reflexivity |].
    unfold list_ascii_eqb, Infinity_literal.
    cbn [string_of_list_ascii list_ascii_of_string String.eqb].
    rewrite (digit_is_not c "I"); [reflexivity | now inversion Hall | reflexivity]. }
  rewrite Hinf. unfold parse_unsigned_decimal. rewrite Hspan.
  cbn [parse_exponent List.length]. rewrite app_nil_r.
  cbn [is_integer_value]. change (Qpower (inject_Z 10) (0 - Z.of_nat 0)) with 1%Q.
  apply Qmult_1_r.
Qed.

Lemma StringToNumber_digits (l : list ascii) (d0 : Z) (ds : list Z) :
  span_digits decimal_digit l = (d0 :: ds, []) ->
  Forall (fun c => decimal_digit c <> None) l ->
  StringToNumber (string_of_list_ascii l) = parse_unsigned l
  /\ StringToNumber (string_of_list_ascii ("-"%char :: l))
     = negate (parse_unsigned l).
Proof.
  intros Hspan Hall.
  assert (Hws : Forall (fun c => is_StrWhiteSpaceChar c = false) l)
    by (eapply Forall_impl; [| exact Hall]; apply digit_is_no_whitespace).
  unfold StringToNumber. rewrite !list_ascii_of_string_of_list_ascii. split.
  - rewrite (trim_no_whitespace l Hws).
    destruct l as [| c r]; [discriminate Hspan |].
    inversion Hall as [| ? ? Hc Hr]; subst.
    rewrite (digit_is_not c "+" Hc eq_refl), (digit_is_not c "-" Hc eq_refl).
    destruct (Ascii.eqb c "0"); [| reflexivity].
    destruct r as [| x r']; [reflexivity |].
    inversion Hr as [| ? ? Hx _]; subst. unfold ascii_in.
    rewrite (digit_is_not x "x" Hx eq_refl), (digit_is_not x "X" Hx eq_refl),
      (digit_is_not x "o" Hx eq_refl), (digit_is_not x "O" Hx eq_refl),
      (digit_is_not x "b" Hx eq_refl), (digit_is_not x "B" Hx eq_refl).
    reflexivity.
  - rewrite trim_no_whitespace by (constructor; [reflexivity | exact Hws]).
    reflexivity.
Qed.

Lemma fold_digits_acc (d : Decimal.uint) (acc : positive) :
  fold_left (fun a x => a * 10 + x) (uint_digits d) (Zpos acc)
  = Zpos (Pos.of_uint_acc d acc).
Proof.
  revert acc.
  induction d as [| d IH | d IH | d IH | d IH | d IH | d IH | d IH | d IH
                  | d IH | d IH];
    intros acc; [reflexivity | ..];
    cbn [uint_digits fold_left Pos.of_uint_acc]; rewrite <- IH; f_equal;
    lia.
Qed.

Lemma digits_value_uint (d : Decimal.uint) :
  digits_value 10 (uint_digits d) = Z.of_N (Pos.of_uint d).
Proof.
  unfold digits_value.
  induction d as [| d IH | d IH | d IH | d IH | d IH | d IH | d IH | d IH
                  | d IH | d IH];
    [reflexivity | exact IH | ..];
    cbn [uint_digits fold_left Pos.of_uint Z.of_N];
    match goal with
    | |- fold_left _ _ (0 * 10 + ?k) = _ => change (0 * 10 + k) with k
    end;
    apply fold_digits_acc.
Qed.

Lemma uint_digits_nil (d : Decimal.uint) :
  uint_digits d = [] -> d = Decimal.Nil.
Proof. destruct d; [reflexivity | discriminate ..]. Qed.

(** Reading a printed numeral. *)
Lemma StringToNumber_of_uint (d : Decimal.uint) :
  is_integer_value
    (StringToNumber (DecimalString.NilZero.string_of_uint d))
    (Z.of_N (Pos.of_uint d))
  /\ is_integer_value
       (StringToNumber (String "-" (DecimalString.NilZero.string_of_uint d)))
       (- Z.of_N (Pos.of_uint d)).
Proof.
  destruct (uint_digits d) as [| d0 ds] eqn:Hd.
  - apply uint_digits_nil in Hd. subst d. split; reflexivity.
  - assert (Hstr : DecimalString.NilZero.string_of_uint d
                   = string_of_list_ascii (uint_chars d)).
    { unfold uint_chars. rewrite string_of_list_ascii_of_string.
      destruct d; [discriminate Hd | reflexivity ..]. }
    pose proof (uint_chars_span d) as Hspan. rewrite Hd in Hspan.
    pose proof (uint_chars_digits d) as Hall.
    destruct (StringToNumber_digits _ _ _ Hspan Hall) as [Hpos Hneg].
    pose proof (parse_unsigned_digits _ _ _ Hspan Hall) as Hval.
    rewrite <- Hd, digits_value_uint in Hval.
    rewrite Hstr. split.
    + rewrite Hpos. exact Hval.
    + change (String "-" (string_of_list_ascii (uint_chars d)))
        with (string_of_list_ascii ("-"%char :: uint_chars d)).
      rewrite Hneg. destruct (parse_unsigned (uint_chars d)) as [| sgn | q];
        cbn [is_integer_value negate] in *; try contradiction.
      rewrite Hval, inject_Z_opp. reflexivity.
Qed.

Lemma Number_of_printed_integer (z : Z) :
  is_integer_value (Number (JString (String_of_integer z))) z.
Proof.
  unfold String_of_integer. cbn [Number].
  destruct z as [| p | p]; cbn [Z.to_int DecimalString.NilZero.string_of_int].
  - reflexivity.
  - pose proof (proj1 (StringToNumber_of_uint (Pos.to_uint p))) as H.
    now rewrite DecimalPos.Unsigned.of_to in H.
  - pose proof (proj2 (StringToNumber_of_uint (Pos.to_uint p))) as H.
    now rewrite DecimalPos.Unsigned.of_to in H.
Qed.

(** An integer printed as the links print it is read back by [Number] as
    the same integer: never [NaN], and two integers print alike only when
    they are equal. *)
Theorem printed_id_reads_back :
  (forall z : Z, is_integer_value (Number (JString (String_of_integer z))) z)
  /\ (forall z : Z, isNaN (Number (JString (String_of_integer z))) = false)
  /\ (forall z : Z,
         num_to_Z (Number (JString (String_of_integer z))) = z)
  /\ (forall z z' : Z,
         String_of_integer z = String_of_integer z' -> z = z').
Proof.
  split; [exact Number_of_printed_integer |].
  split; [| split].
  - intros z. pose proof (Number_of_printed_integer z) as H.
    destruct (Number (JString (String_of_integer z))); [contradiction | easy ..].
  - intros z. apply is_integer_value_to_Z, Number_of_printed_integer.
  - intros z z' Heq.
    rewrite <- (is_integer_value_to_Z _ _ (Number_of_printed_integer z)).
    rewrite <- (is_integer_value_to_Z _ _ (Number_of_printed_integer z')).
    now rewrite Heq.
Qed.

(** Following the link of a row of the list: the detail handler, asked
    with the printed id of the row, answers 200 with exactly that row and
    the scores of its movie; and a rating from 1 to 5 sent to the printed
    id of a stored movie is answered 200 and adds one rating row for that
    movie and that score. *)
Theorem list_links_resolve (title_leb : string -> string -> bool) (db : Db)
  (Hvalid : db_valid db) :
  (forall row,
      In row (getAllMovies title_leb db) ->
      exists shown,
        get_api_movies_id (String_of_integer (id (stats_movie row))) db
        = mkResponse 200 (MovieDetailJson (mkMovieDetail row shown))
        /\ Permutation shown (map score (ratings_of (stats_movie row) db)))
  /\ (forall m now k,
         In m (movies_rows db) -> 1 <= k <= 5 ->
         post_api_movies_id_rate now (String_of_integer (id m))
           (score_body (JNumber (num_of_Z k))) db
         = (mkResponse 200 (RatingStatsJson (fst (addRating now (id m) k db))),
            insert_rating now (id m) k db)).
Proof.
  pose proof Hvalid as ([Hkey _] & _). split.
  - intros row Hrow.
    apply (Permutation_in _ (getAllMovies_perm title_leb db Hkey)) in Hrow.
    apply in_map_iff in Hrow. destruct Hrow as (m & <- & Hin).
    cbn [with_stats stats_movie].
    pose proof (Number_of_printed_integer (id m)) as Hid.
    exists (getRatingsForMovie (Number (JString (String_of_integer (id m)))) db).
    split; [now apply get_api_movies_id_stored |].
    now apply getRatingsForMovie_perm.
  - intros m now k Hin Hk.
    pose proof (Number_of_printed_integer (id m)) as Hid.
    assert (Hbody : get_member (score_body (JNumber (num_of_Z k))) "score"
                    = Return (JNumber (num_of_Z k))) by reflexivity.
    rewrite (post_api_movies_id_rate_cases _ _ _ _ _ Hbody). cbv zeta.
    assert (Hscore : isValidRating (JNumber (num_of_Z k)) = true).
    { apply isValidRating_iff. exists k. split; [reflexivity | exact Hk]. }
    rewrite Hscore. cbn [negb].
    rewrite (proj2 (getMovieById_iff _ db m Hkey) (conj Hin Hid)).
    destruct (Number (JString (String_of_integer (id m)))) as [| sgn | q] eqn:E;
      try contradiction.
    cbn [isNaN Number].
    rewrite (is_integer_value_to_Z (Finite q) (id m) Hid).
    rewrite num_to_Z_num_of_Z. reflexivity.
Qed.

Lemma list_links_resolve_witness :
  db_valid (mkDb [mkMovie 12 "Vertigo" 1958 "Thriller" 0] [] 13 1)
  /\ post_api_movies_id_rate 3 "12" (score_body (JNumber (num_of_Z 5)))
       (mkDb [mkMovie 12 "Vertigo" 1958 "Thriller" 0] [] 13 1)
     = (mkResponse 200
          (RatingStatsJson
             (fst (addRating 3 12 5
                     (mkDb [mkMovie 12 "Vertigo" 1958 "Thriller" 0] [] 13 1)))),
        insert_rating 3 12 5
          (mkDb [mkMovie 12 "Vertigo" 1958 "Thriller" 0] [] 13 1)).
Proof.
  assert (Hvalid : db_valid (mkDb [mkMovie 12 "Vertigo" 1958 "Thriller" 0]
                                  [] 13 1)).
  { split; [split | split].
    - simpl. constructor; [intros [] | constructor].
    - repeat constructor.
    - constructor.
    - constructor; [discriminate | constructor]. }
  split; [exact Hvalid |].
  refine (proj2 (list_links_resolve String.leb _ Hvalid)
            (mkMovie 12 "Vertigo" 1958 "Thriller" 0) 3 5 _ _).
  - left. reflexivity.
  - split; discriminate.
Defined.
